(** * Temporal aliases: the [Alias] model of [alias/models.py]

    A shallow embedding of the Django model [Alias], its overridden [save],
    its [__str__], and the module functions [get_aliases] and
    [alias_replace], followed by the properties of the interval-consistency
    rules they implement.

    Instants ([datetime] values, all normalised to UTC by the source) are
    integers; the table behind [Alias.objects] is the list of its rows in
    insertion order; a raised exception is a value of [exn]. *)

From Stdlib Require Import ZArith List String Bool Lia.
Import ListNotations.
Open Scope string_scope.
Open Scope list_scope.
Open Scope Z_scope.

(** ** Python values and exceptions *)

Definition datetime := Z.

Inductive exn : Type :=
| ValueError (msg : string)
| TypeError
| DoesNotExist
| MultipleObjectsReturned
| DatabaseError
| IntegrityError.

Inductive outcome (A : Type) : Type :=
| Ok (a : A)
| Raise (e : exn).
Arguments Ok {A} a.
Arguments Raise {A} e.

(** An argument as a caller may pass it to [get_aliases]. *)
Inductive pyval : Type :=
| PyNone
| PyStr (s : string)
| PyDatetime (d : datetime)
| PyInt (n : Z).

(** ** The model and its table *)

(** An in-memory [Alias] instance; [pk] is [None] until it has been saved. *)
Record Alias : Type := mkAlias {
  pk : option nat;
  alias : string;
  target : string;
  start : datetime;
  end_ : option datetime
}.

(** A committed row of the table. *)
Record Row : Type := mkRow {
  id : nat;
  r_alias : string;
  r_target : string;
  r_start : datetime;
  r_end : option datetime
}.

Definition Table := list Row.

Definition to_row (i : nat) (self : Alias) : Row :=
  mkRow i (alias self) (target self) (start self) (end_ self).

Definition from_row (r : Row) : Alias :=
  mkAlias (Some (id r)) (r_alias r) (r_target r) (r_start r) (r_end r).

Definition with_pk (i : nat) (self : Alias) : Alias :=
  mkAlias (Some i) (alias self) (target self) (start self) (end_ self).

Definition set_end (self : Alias) (e : option datetime) : Alias :=
  mkAlias (pk self) (alias self) (target self) (start self) e.

(** ** Query sets: [Alias.objects.filter(...)], [.count()], [.get(...)] *)

(** The field lookups the source uses.  A comparison against a NULL [end]
    is not satisfied, as in SQL. *)
Inductive lookup : Type :=
| alias_eq (s : string)
| target_eq (s : string)
| start_eq (t : datetime)
| start__gte (t : datetime)
| start__lt (t : datetime)
| end__gte (t : datetime)
| end__lt (t : datetime).

Definition matches (r : Row) (l : lookup) : bool :=
  match l with
  | alias_eq s => String.eqb (r_alias r) s
  | target_eq s => String.eqb (r_target r) s
  | start_eq t => r_start r =? t
  | start__gte t => t <=? r_start r
  | start__lt t => r_start r <? t
  | end__gte t => match r_end r with Some e => t <=? e | None => false end
  | end__lt t => match r_end r with Some e => e <? t | None => false end
  end.

Definition objects_filter (ls : list lookup) (db : Table) : list Row :=
  filter (fun r => forallb (matches r) ls) db.

Definition count (qs : list Row) : nat := List.length qs.

(** Truth value of a query set: it is true when it has a row. *)
Definition truthy (qs : list Row) : bool :=
  match qs with [] => false | _ :: _ => true end.

Definition objects_get (ls : list lookup) (db : Table) : outcome Alias :=
  match objects_filter ls db with
  | [] => Raise DoesNotExist
  | [r] => Ok (from_row r)
  | _ :: _ :: _ => Raise MultipleObjectsReturned
  end.

(** ** Django's [Model.save], the method [super(Alias, self).save] calls *)

Record kwargs : Type := mkKwargs {
  force_insert : bool;
  update_fields : option (list string)
}.

Definition no_kwargs : kwargs := mkKwargs false None.

Definition concrete_fields : list string := ["alias"; "target"; "start"; "end"].

Definition mem (f : string) (fs : list string) : bool :=
  existsb (String.eqb f) fs.

Definition has_id (i : nat) (db : Table) : bool :=
  existsb (fun r => Nat.eqb (id r) i) db.

(** The key an auto-increment column gives the next inserted row. *)
Definition next_id (db : Table) : nat :=
  S (fold_right Nat.max 0%nat (map id db)).

(** [UPDATE ... SET <fs> WHERE id = i] with the values of [self]. *)
Definition update_row (fs : list string) (self : Alias) (r : Row) : Row :=
  mkRow (id r)
        (if mem "alias" fs then alias self else r_alias r)
        (if mem "target" fs then target self else r_target r)
        (if mem "start" fs then start self else r_start r)
        (if mem "end" fs then end_ self else r_end r).

Definition update_where_id (i : nat) (fs : list string) (self : Alias)
    (db : Table) : Table :=
  map (fun r => if Nat.eqb (id r) i then update_row fs self r else r) db.

Definition model_save (db : Table) (self : Alias) (kw : kwargs)
    : Table * outcome Alias :=
  match update_fields kw with
  | Some [] => (db, Ok self)
  | Some fs =>
      if force_insert kw then
        (db, Raise (ValueError
                      "Cannot force both insert and updating in model saving."))
      else if negb (forallb (fun f => mem f concrete_fields) fs) then
        (db, Raise (ValueError
                      "The following fields do not exist in this model"))
      else
        match pk self with
        | None =>
            (db, Raise (ValueError
                  "Cannot force an update in save() with no primary key."))
        | Some i =>
            if has_id i db
            then (update_where_id i fs self db, Ok self)
            else (db, Raise DatabaseError)
        end
  | None =>
      match pk self with
      | None =>
          let i := next_id db in
          (db ++ [to_row i self], Ok (with_pk i self))
      | Some i =>
          if has_id i db then
            if force_insert kw then (db, Raise IntegrityError)
            else (update_where_id i concrete_fields self db, Ok self)
          else (db ++ [to_row i self], Ok self)
      end
  end.

(** ** [Alias.save] *)

Definition overlap_msg : string := "Your new Alias may cause overlap.".

Definition save (db : Table) (self : Alias) (kw : kwargs)
    : Table * outcome Alias :=
  if truthy (objects_filter [alias_eq (alias self); target_eq (target self);
                             start_eq (start self)] db)
  then model_save db self kw
  else
    match end_ self with
    | Some self_end =>
        let aliases_overlapping_start :=
          count (objects_filter [alias_eq (alias self); target_eq (target self);
                                 start__gte (start self); start__lt self_end] db) in
        let aliases_overlapping_end :=
          count (objects_filter [alias_eq (alias self); target_eq (target self);
                                 end__gte (start self); end__lt self_end] db) in
        let overlapping_present :=
          (0 <? aliases_overlapping_start)%nat
          || (0 <? aliases_overlapping_end)%nat in
        if overlapping_present
        then (db, Raise (ValueError overlap_msg))
        else model_save db self kw
    | None =>
        let aliases_overlapping_start :=
          count (objects_filter [alias_eq (alias self); target_eq (target self);
                                 start__gte (start self)] db) in
        let overlapping_present := (0 <? aliases_overlapping_start)%nat in
        if overlapping_present
        then (db, Raise (ValueError overlap_msg))
        else model_save db self kw
    end.

(** [Alias.objects.create]: build the instance from the given fields and
    save it with [force_insert=True]. *)
Definition objects_create (db : Table) (a t : string) (s : datetime)
    (e : option datetime) : Table * outcome Alias :=
  save db (mkAlias None a t s e) (mkKwargs true None).

(** ** [Alias.__str__]

    [now k] is what the [k]-th call of [timezone.now()] in the method body
    returns (the calls are numbered in the order the body places them).
    The result [Ok None] is the method falling off its end. *)

Definition not_yet_msg : string := "Alias is not active yet".
Definition no_longer_msg : string := "Alias is no longer active".

Definition __str__ (self : Alias) (now : nat -> datetime)
    : outcome (option string) :=
  let otherwise : outcome (option string) :=
    if now 2%nat <? start self then Raise (ValueError not_yet_msg)
    else match end_ self with
         | None => Raise TypeError
         | Some e =>
             if e <=? now 3%nat then Raise (ValueError no_longer_msg)
             else Ok None
         end in
  if (start self <=? now 0%nat)
     && match end_ self with None => true | Some _ => false end
  then Ok (Some (target self))
  else if start self <=? now 1%nat then
    match end_ self with
    | None => Raise TypeError
    | Some e => if now 1%nat <? e then Ok (Some (target self)) else otherwise
    end
  else otherwise.

(** The method read at one instant [t]. *)
Definition str_at (self : Alias) (t : datetime) : outcome (option string) :=
  __str__ self (fun _ => t).

(** ** [get_aliases] *)

Section GetAliases.

(** [datetime.strptime(text, format)]; [None] stands for its [ValueError]. *)
Variable strptime : string -> string -> option datetime.

Definition strptime_msg : string := "time data does not match format".

Definition parse_start (start : pyval) : outcome datetime :=
  match start with
  | PyStr s =>
      match strptime s "%Y-%m-%d %H:%M:%S.%f" with
      | Some from_ => Ok from_
      | None => Raise (ValueError strptime_msg)
      end
  | PyDatetime d => Ok d
  | _ => Raise (ValueError "'start' should be either datetime or str")
  end.

Definition parse_end (end' : pyval) : outcome datetime :=
  match end' with
  | PyStr s =>
      match strptime s "%Y-%m-%d %H:%M:%S:%f" with
      | Some to => Ok to
      | None => Raise (ValueError strptime_msg)
      end
  | PyDatetime d => Ok d
  | _ => Raise (ValueError "'end' should be either datetime or str or None")
  end.

(** The loop of the branch [end is not None]. *)
Fixpoint bounded_loop (from_ to : datetime) (query_set : list Row)
    (aliases : list string) : outcome (list string) :=
  match query_set with
  | [] => Ok aliases
  | a :: rest =>
      if from_ <=? r_start a then
        match r_end a with
        | None => Raise TypeError
        | Some e =>
            if e <=? to
            then bounded_loop from_ to rest (aliases ++ [r_alias a])
            else bounded_loop from_ to rest aliases
        end
      else bounded_loop from_ to rest aliases
  end.

(** The loop of the branch [end is None]. *)
Fixpoint open_loop (from_ : datetime) (query_set : list Row)
    (aliases : list string) : list string :=
  match query_set with
  | [] => aliases
  | a :: rest =>
      if from_ <=? r_start a
      then open_loop from_ rest (aliases ++ [r_alias a])
      else open_loop from_ rest aliases
  end.

Definition get_aliases (db : Table) (target : string) (start end' : pyval)
    : outcome (list string) :=
  match parse_start start with
  | Raise e => Raise e
  | Ok from_ =>
      let query_set := objects_filter [target_eq target] db in
      match end' with
      | PyNone => Ok (open_loop from_ query_set [])
      | _ =>
          match parse_end end' with
          | Raise e => Raise e
          | Ok to => bounded_loop from_ to query_set []
          end
      end
  end.

End GetAliases.

(** ** [alias_replace]

    The function mutates the instance it is given, so its result carries
    the instance as the caller sees it afterwards besides the table. *)

Definition alias_replace (db : Table) (existing_alias : Alias)
    (replace_at : datetime) (new_alias_value : string)
    : Table * Alias * outcome string :=
  let existing_alias := set_end existing_alias (Some replace_at) in
  match save db existing_alias (mkKwargs false (Some ["end"])) with
  | (db1, Raise e) => (db1, existing_alias, Raise e)
  | (db1, Ok existing_alias) =>
      match objects_create db1 new_alias_value (target existing_alias)
                           replace_at None with
      | (db2, Raise e) => (db2, existing_alias, Raise e)
      | (db2, Ok _) =>
          match objects_get [alias_eq new_alias_value] db2 with
          | Raise e => (db2, existing_alias, Raise e)
          | Ok found => (db2, existing_alias, Ok (alias found))
          end
      end
  end.

(** ** Interval predicates, as the specification words them

    An interval is [[s, e)], and a [None] end stands for +infinity. *)

Definition lt_end (t : datetime) (e : option datetime) : bool :=
  match e with None => true | Some e => t <? e end.

(** [[s1,e1)] and [[s2,e2)] overlap iff [s1 < e2] and [s2 < e1]. *)
Definition overlaps (s1 : datetime) (e1 : option datetime)
    (s2 : datetime) (e2 : option datetime) : bool :=
  lt_end s1 e2 && lt_end s2 e1.

(** [contains(t)]: [s <= t < e]. *)
Definition contains (s : datetime) (e : option datetime) (t : datetime) : bool :=
  (s <=? t) && lt_end t e.

(** [contains_range(a, b)]: [a >= s] and ([e] is None or [b <= e]). *)
Definition contains_range (s : datetime) (e : option datetime)
    (a b : datetime) : bool :=
  (s <=? a) && match e with None => true | Some e => b <=? e end.

(** The row is a record of the key [(a, t)]. *)
Definition same_key (a t : string) (r : Row) : bool :=
  String.eqb (r_alias r) a && String.eqb (r_target r) t.

(** The row's interval is not empty. *)
Definition well_formed (r : Row) : bool :=
  match r_end r with None => true | Some e => r_start r <? e end.

(** The row lies inside the range [[from_, to]]: this is the test of the
    bounded loop of [get_aliases]. *)
Definition within (from_ to : datetime) (r : Row) : bool :=
  (from_ <=? r_start r)
  && match r_end r with None => false | Some e => e <=? to end.

(** ** Predicates on the table used to state the properties *)

(** What the two counting queries of [save] look for in a row of the
    candidate's key: a start inside [[s, e)], or an end inside [[s, e)]. *)
Definition detected (a t : string) (s : datetime) (e : option datetime)
    (r : Row) : bool :=
  same_key a t r
  && match e with
     | Some ce =>
         ((s <=? r_start r) && (r_start r <? ce))
         || match r_end r with
            | Some re => (s <=? re) && (re <? ce)
            | None => false
            end
     | None => s <=? r_start r
     end.

(** The record matches no committed row on [(alias, target, start)]. *)
Definition unmatched (a t : string) (s : datetime) (db : Table) : Prop :=
  forall r, In r db -> same_key a t r = true -> r_start r <> s.

(** Some committed row has the instance's alias, target and start. *)
Definition matched (self : Alias) (db : Table) : Prop :=
  exists r, In r db /\ r_alias r = alias self
            /\ r_target r = target self /\ r_start r = start self.

(** The row makes the bounded loop compare [None <= to]. *)
Definition open_in_range (from_ : datetime) (r : Row) : bool :=
  (from_ <=? r_start r)
  && match r_end r with None => true | Some _ => false end.

(** The keyword arguments [alias_replace] saves the narrowed record with. *)
Definition update_end_kwargs : kwargs := mkKwargs false (Some ["end"]).

(** The row of key [i] exists and its end is [e]. *)
Definition end_committed (i : nat) (e : option datetime) (db : Table) : Prop :=
  (exists r, In r db /\ id r = i)
  /\ forall r, In r db -> id r = i -> r_end r = e.

(** A [strptime] that accepts no text, for the examples that pass instants. *)
Definition no_strptime : string -> string -> option datetime :=
  fun _ _ => None.

(** ** [Alias.__repr__]

    The clock is read as in [__str__]: [now k] is the [k]-th call of
    [timezone.now()] the body places.  The first comparison is reached only
    when [end] is not None. *)

Definition __repr__ (self : Alias) (now : nat -> datetime)
    : outcome (option string) :=
  let otherwise : outcome (option string) :=
    if now 1%nat <? start self then Raise (ValueError not_yet_msg)
    else match end_ self with
         | None => Raise TypeError
         | Some e =>
             if e <=? now 2%nat then Raise (ValueError no_longer_msg)
             else Ok None
         end in
  match end_ self with
  | None => Ok (Some (target self))
  | Some e =>
      if (start self <=? now 0%nat) && (now 0%nat <? e)
      then Ok (Some (target self))
      else otherwise
  end.

(** The method read at one instant [t]. *)
Definition repr_at (self : Alias) (t : datetime) : outcome (option string) :=
  __repr__ self (fun _ => t).

(** ** Invariants of the table used to state the properties *)

(** The committed records of the key [(a, t)] are pairwise disjoint. *)
Definition pairwise_disjoint (a t : string) (db : Table) : Prop :=
  forall r1 r2, In r1 db -> In r2 db -> id r1 <> id r2 ->
    same_key a t r1 = true -> same_key a t r2 = true ->
    overlaps (r_start r1) (r_end r1) (r_start r2) (r_end r2) = false.

(** The candidate [[s, e)] overlaps the row, which is of its key. *)
Definition conflicts (a t : string) (s : datetime) (e : option datetime)
    (r : Row) : bool :=
  same_key a t r && overlaps s e (r_start r) (r_end r).

(** The candidate starts before every committed record of its key, and
    those records are well-formed. *)
Definition precedes_all (a t : string) (s : datetime) (db : Table) : Prop :=
  forall r, In r db -> same_key a t r = true ->
            s < r_start r /\ well_formed r = true.

(** The clock does not pass the instant [b] during the readings
    [now 0 .. now 3]. *)
Definition steady (now : nat -> datetime) (b : datetime) : Prop :=
  forall k, (k <= 3)%nat -> (now k <? b) = (now 0%nat <? b).

(** * Properties *)

(** ** Query sets *)

Ltac to_prop :=
  repeat match goal with
  | H : _ && _ = true |- _ => apply andb_true_iff in H; destruct H
  | H : (_ =? _)%string = true |- _ => apply String.eqb_eq in H
  | H : (_ <=? _) = true |- _ => apply Z.leb_le in H
  | H : (_ <? _) = true |- _ => apply Z.ltb_lt in H
  | H : (_ =? _) = true |- _ => apply Z.eqb_eq in H
  | H : (_ <=? _) = false |- _ => apply Z.leb_gt in H
  | H : (_ <? _) = false |- _ => apply Z.ltb_ge in H
  end.

Ltac to_bool :=
  repeat match goal with
  | |- _ && _ = true => apply andb_true_iff; split
  | |- (_ =? _)%string = true => apply String.eqb_eq
  | |- (_ <=? _) = true => apply Z.leb_le
  | |- (_ <? _) = true => apply Z.ltb_lt
  | |- (_ =? _) = true => apply Z.eqb_eq
  end.

Lemma in_objects_filter (ls : list lookup) (db : Table) (r : Row) :
  In r (objects_filter ls db) <-> In r db /\ forallb (matches r) ls = true.
Proof. unfold objects_filter. apply filter_In. Qed.

Lemma truthy_iff (qs : list Row) : truthy qs = true <-> exists r, In r qs.
Proof.
  destruct qs as [|r qs]; simpl; split.
  - discriminate.
  - intros [r []].
  - intros _. exists r. now left.
  - reflexivity.
Qed.

Lemma truthy_false_iff (qs : list Row) :
  truthy qs = false <-> forall r, ~ In r qs.
Proof.
  destruct qs as [|r qs]; simpl; split; auto.
  - discriminate.
  - intros H. exfalso. apply (H r). now left.
Qed.

Lemma count_pos_iff (qs : list Row) :
  (0 <? count qs)%nat = true <-> truthy qs = true.
Proof. destruct qs; simpl; split; auto. Qed.

Lemma count_pos_false_iff (qs : list Row) :
  (0 <? count qs)%nat = false <-> truthy qs = false.
Proof. destruct qs; simpl; split; auto. Qed.

Lemma same_key_iff (a t : string) (r : Row) :
  same_key a t r = true <-> r_alias r = a /\ r_target r = t.
Proof.
  unfold same_key. now rewrite andb_true_iff, !String.eqb_eq.
Qed.

(** ** The base save *)

Lemma map_id_update (i : nat) (fs : list string) (self : Alias) (db : Table) :
  map id (update_where_id i fs self db) = map id db.
Proof.
  unfold update_where_id. rewrite map_map. apply map_ext.
  intros r. now destruct (Nat.eqb (id r) i).
Qed.

Lemma next_id_update (i : nat) (fs : list string) (self : Alias) (db : Table) :
  next_id (update_where_id i fs self db) = next_id db.
Proof. unfold next_id. now rewrite map_id_update. Qed.

Lemma has_id_iff (i : nat) (db : Table) :
  has_id i db = true <-> exists r, In r db /\ id r = i.
Proof.
  unfold has_id. rewrite existsb_exists.
  split; intros [r [Hin H]]; exists r; split; auto;
    now apply Nat.eqb_eq.
Qed.

Lemma next_id_above (db : Table) (r : Row) :
  In r db -> (id r < next_id db)%nat.
Proof.
  unfold next_id. induction db as [|x db IH]; simpl; intros H.
  - contradiction.
  - destruct H as [-> | H]; [|specialize (IH H)]; lia.
Qed.

(** A fresh instance saved without [update_fields] is inserted. *)
Lemma model_save_fresh (db : Table) (a t : string) (s : datetime)
    (e : option datetime) (fi : bool) :
  model_save db (mkAlias None a t s e) (mkKwargs fi None)
  = (db ++ [mkRow (next_id db) a t s e],
     Ok (mkAlias (Some (next_id db)) a t s e)).
Proof. reflexivity. Qed.


(** ** The overlap check of [Alias.save] *)

Lemma count_filter_existsb (f : Row -> bool) (db : Table) :
  (0 <? count (filter f db))%nat = existsb f db.
Proof.
  induction db as [|r db IH]; simpl; auto.
  destruct (f r); simpl; auto.
Qed.

Lemma existsb_orb (f g : Row -> bool) (db : Table) :
  existsb f db || existsb g db = existsb (fun r => f r || g r) db.
Proof.
  induction db as [|r db IH]; simpl; auto.
  rewrite <- IH.
  destruct (f r), (g r), (existsb f db), (existsb g db); reflexivity.
Qed.

Lemma truthy_filter_existsb (f : Row -> bool) (db : Table) :
  truthy (filter f db) = existsb f db.
Proof.
  induction db as [|r db IH]; simpl; auto.
  destruct (f r); simpl; auto.
Qed.

Lemma unmatched_filter (a t : string) (s : datetime) (db : Table) :
  unmatched a t s db ->
  truthy (objects_filter [alias_eq a; target_eq t; start_eq s] db) = false.
Proof.
  intros Hun. apply truthy_false_iff. intros r Hin.
  apply in_objects_filter in Hin. destruct Hin as [Hin Hm].
  simpl in Hm. to_prop.
  apply (Hun r Hin); [apply same_key_iff; auto | assumption].
Qed.

(** [save] on a fresh candidate that matches no committed row: it raises
    the overlap error when some row is [detected], and inserts otherwise. *)
Lemma create_unmatched (db : Table) (a t : string) (s : datetime)
    (e : option datetime) :
  unmatched a t s db ->
  objects_create db a t s e
  = if existsb (detected a t s e) db
    then (db, Raise (ValueError overlap_msg))
    else (db ++ [mkRow (next_id db) a t s e],
          Ok (mkAlias (Some (next_id db)) a t s e)).
Proof.
  intros Hun. unfold objects_create, save. cbn [alias target start end_].
  rewrite (unmatched_filter _ _ _ _ Hun).
  destruct e as [ce|]; cbv zeta; unfold objects_filter;
    rewrite !count_filter_existsb.
  - rewrite existsb_orb.
    match goal with
    | |- (if ?x then _ else _) = (if ?y then _ else _) =>
        replace x with y; [destruct y; reflexivity|]
    end.
    induction db as [|r db IH]; simpl; auto.
    rewrite IH by (intros r' H'; apply Hun; now right). f_equal.
    unfold detected, same_key.
    destruct (r_alias r =? a)%string, (r_target r =? t)%string,
      (r_end r); simpl; rewrite ?andb_true_r, ?orb_false_r; reflexivity.
  - match goal with
    | |- (if ?x then _ else _) = (if ?y then _ else _) =>
        replace x with y; [destruct y; reflexivity|]
    end.
    clear Hun. induction db as [|r db IH]; simpl; auto.
    rewrite IH. f_equal.
    unfold detected, same_key.
    destruct (r_alias r =? a)%string, (r_target r =? t)%string;
      simpl; rewrite ?andb_true_r; reflexivity.
Qed.

Lemma existsb_detected (a t : string) (s : datetime) (e : option datetime)
    (db : Table) :
  existsb (detected a t s e) db = true
  <-> exists r, In r db /\ detected a t s e r = true.
Proof. apply existsb_exists. Qed.

(** On well-formed rows, a detected row overlaps the candidate unless it
    merely ends where the candidate starts. *)
Lemma detected_overlaps (a t : string) (s : datetime) (e : option datetime)
    (r : Row) :
  well_formed r = true -> r_end r <> Some s ->
  detected a t s e r = true ->
  same_key a t r = true /\ overlaps s e (r_start r) (r_end r) = true.
Proof.
  unfold detected, well_formed, overlaps, lt_end.
  intros Hwf Hadj Hd. to_prop. split; [assumption|].
  destruct (r_end r) as [re|].
  - assert (re <> s) by congruence.
    destruct e as [ce|]; to_prop.
    + apply orb_true_iff in H0. destruct H0; to_prop; to_bool; lia.
    + to_bool; [lia | reflexivity].
  - destruct e as [ce|]; to_prop.
    + apply orb_true_iff in H0. destruct H0; [|discriminate].
      to_prop. to_bool; [reflexivity | lia].
    + reflexivity.
Qed.

(** An overlapping row that starts no earlier than the candidate, or that
    ends before the candidate's end, is detected. *)
Lemma overlaps_detected (a t : string) (s : datetime) (e : option datetime)
    (r : Row) :
  same_key a t r = true ->
  overlaps s e (r_start r) (r_end r) = true ->
  (s <= r_start r
   \/ exists re ce, r_end r = Some re /\ e = Some ce /\ re < ce) ->
  detected a t s e r = true.
Proof.
  unfold detected, overlaps, lt_end. intros Hk Ho Hside. rewrite Hk. simpl.
  to_prop. destruct Hside as [Hs | (re & ce & Hre & He & Hlt)].
  - destruct e as [ce|]; to_prop; [|to_bool; lia].
    apply orb_true_iff. left. to_bool; lia.
  - subst e. rewrite Hre in *. to_prop.
    apply orb_true_iff. right. to_bool; lia.
Qed.

(** What the check does guarantee.  For a candidate that matches no
    committed record on (alias, target, start): (a) creating it fails with
    the overlap error whenever it overlaps, under [s1 < e2 /\ s2 < e1]
    with a None end as +infinity, a same-key record that starts no earlier
    than the candidate or a bounded same-key record that ends before the
    candidate's bounded end; (b) whenever creating it fails, it fails with
    the overlap error, the table is untouched and, provided the same-key
    records are well-formed and none ends exactly at the candidate's
    start, the candidate overlaps some same-key record; (c) otherwise the
    candidate is committed as a new row. *)
Theorem create_overlap_check (db : Table) (a t : string) (s : datetime)
    (e : option datetime) :
  unmatched a t s db ->
  ((exists r, In r db /\ same_key a t r = true
              /\ overlaps s e (r_start r) (r_end r) = true
              /\ (s <= r_start r
                  \/ exists re ce, r_end r = Some re /\ e = Some ce /\ re < ce)) ->
   objects_create db a t s e = (db, Raise (ValueError overlap_msg)))
  /\ (forall db' x,
        objects_create db a t s e = (db', Raise x) ->
        x = ValueError overlap_msg /\ db' = db
        /\ ((forall r, In r db -> same_key a t r = true ->
                       well_formed r = true /\ r_end r <> Some s) ->
            exists r, In r db /\ same_key a t r = true
                      /\ overlaps s e (r_start r) (r_end r) = true))
  /\ (forall db' o,
        objects_create db a t s e = (db', Ok o) ->
        db' = db ++ [mkRow (next_id db) a t s e]
        /\ o = mkAlias (Some (next_id db)) a t s e).
Proof.
  intros Hun. rewrite (create_unmatched _ _ _ _ _ Hun).
  destruct (existsb (detected a t s e) db) eqn:Hex.
  - repeat split; try congruence.
    intros Hwf. apply existsb_detected in Hex.
    destruct Hex as (r & Hin & Hd).
    assert (Hk : same_key a t r = true).
    { unfold detected in Hd. now apply andb_true_iff in Hd. }
    destruct (Hwf r Hin Hk) as [Hw Hadj].
    exists r. split; [assumption|].
    now apply detected_overlaps.
  - split; [|split].
    + intros (r & Hin & Hk & Ho & Hside).
      assert (Ht : existsb (detected a t s e) db = true).
      { apply existsb_detected. exists r. split; [assumption|].
        now apply overlaps_detected. }
      congruence.
    + intros db' x H. discriminate.
    + intros db' o H. now inversion H.
Qed.

Lemma create_overlap_check_witness :
  unmatched "x" "T" (-1) [mkRow 1 "x" "T" 0 (Some 50)]
  /\ objects_create [mkRow 1 "x" "T" 0 (Some 50)] "x" "T" (-1) (Some 49)
     = ([mkRow 1 "x" "T" 0 (Some 50)], Raise (ValueError overlap_msg)).
Proof.
  assert (Hun : unmatched "x" "T" (-1) [mkRow 1 "x" "T" 0 (Some 50)]).
  { intros r [<- | []] _. simpl. lia. }
  split; [exact Hun|].
  apply (proj1 (create_overlap_check _ "x" "T" (-1) (Some 49) Hun)).
  exists (mkRow 1 "x" "T" 0 (Some 50)).
  repeat split; [now left | left; simpl; lia].
Defined.

(** C1 (the code at the failing input).  Saving a candidate must fail
    with the overlap error exactly when it overlaps a committed record of
    its key, whichever of the two is inserted first.  The candidate
    [[10, 20)] lies inside the committed same-key record [[0, 100)] and
    overlaps it under the formula, yet creating it succeeds: neither the
    start nor the end of the enclosing record falls in [[10, 20)], which is
    all the two counting queries look at.  In the other insertion order
    the second record is rejected. *)
Lemma create_accepts_enclosed_candidate :
  (exists r, In r [mkRow 1 "x" "T" 0 (Some 100)]
             /\ same_key "x" "T" r = true
             /\ overlaps 10 (Some 20) (r_start r) (r_end r) = true)
  /\ objects_create [mkRow 1 "x" "T" 0 (Some 100)] "x" "T" 10 (Some 20)
     = ([mkRow 1 "x" "T" 0 (Some 100); mkRow 2 "x" "T" 10 (Some 20)],
        Ok (mkAlias (Some 2%nat) "x" "T" 10 (Some 20)))
  /\ objects_create [mkRow 1 "x" "T" 10 (Some 20)] "x" "T" 0 (Some 100)
     = ([mkRow 1 "x" "T" 10 (Some 20)], Raise (ValueError overlap_msg)).
Proof.
  split; [|split; reflexivity].
  exists (mkRow 1 "x" "T" 0 (Some 100)). repeat split. now left.
Qed.

(** *** Adjacent intervals *)

(** C2 (the code at the failing input).  After the committed [[0, 50)], the
    bounded candidate [[50, 60)] of the same key does not overlap it under
    the formula, yet creating it raises the overlap error: the query
    [end__gte=self.start] counts the record that ends at the candidate's
    start. *)
Theorem adjacent_bounded_candidate_rejected :
  overlaps 50 (Some 60) 0 (Some 50) = false
  /\ objects_create [mkRow 1 "x" "T" 0 (Some 50)] "x" "T" 50 (Some 60)
     = ([mkRow 1 "x" "T" 0 (Some 50)], Raise (ValueError overlap_msg)).
Proof. split; reflexivity. Qed.

(** The rejection is general: a bounded candidate that starts where a
    same-key record ends is always refused. *)
Lemma adjacent_bounded_candidate_always_rejected (db : Table) (a t : string)
    (r : Row) (s u : datetime) :
  In r db -> same_key a t r = true -> r_end r = Some s ->
  unmatched a t s db -> s < u ->
  objects_create db a t s (Some u) = (db, Raise (ValueError overlap_msg)).
Proof.
  intros Hin Hk He Hun Hlt. rewrite (create_unmatched _ _ _ _ _ Hun).
  assert (Hex : existsb (detected a t s (Some u)) db = true).
  { apply existsb_detected. exists r. split; [assumption|].
    unfold detected. rewrite Hk, He. simpl.
    apply orb_true_iff. right. to_bool; lia. }
  now rewrite Hex.
Qed.

(** The open-ended candidate of the test [test_end_is_exclusive] is
    accepted: [[t, +infinity)] after the only record [[s, t)]. *)
Lemma adjacent_open_candidate_accepted (i : nat) (a t : string)
    (s e : datetime) :
  s < e ->
  objects_create [mkRow i a t s (Some e)] a t e None
  = ([mkRow i a t s (Some e); mkRow (S i) a t e None],
     Ok (mkAlias (Some (S i)) a t e None)).
Proof.
  intros Hlt. rewrite create_unmatched.
  - simpl. unfold detected. simpl.
    replace (e <=? s) with false by (symmetry; apply Z.leb_gt; lia).
    rewrite andb_false_r. simpl. unfold next_id. simpl.
    now rewrite Nat.max_0_r.
  - intros r [<- | []] _. simpl. lia.
Qed.

(** *** Intervals that are empty or reversed *)

Lemma existsb_false (f : Row -> bool) (db : Table) :
  (forall r, f r = false) -> existsb f db = false.
Proof.
  intros H. induction db as [|r db IH]; simpl; auto.
  now rewrite H, IH.
Qed.

(** C4 (amended).  Nothing validates the interval: a new record whose end
    is at or before its start is never refused, by the overlap check or
    otherwise, and is committed as a new row, whatever the table holds. *)
Theorem create_reversed_interval_committed (db : Table) (a t : string)
    (s e : datetime) :
  e <= s ->
  objects_create db a t s (Some e)
  = (db ++ [mkRow (next_id db) a t s (Some e)],
     Ok (mkAlias (Some (next_id db)) a t s (Some e))).
Proof.
  intros Hle. unfold objects_create, save. cbn [alias target start end_].
  destruct (truthy _); [reflexivity|].
  cbv zeta. unfold objects_filter. rewrite !count_filter_existsb.
  rewrite !existsb_false; [reflexivity| |].
  - intros r. simpl. destruct (r_end r) as [re|];
      [|now rewrite !andb_false_r].
    destruct (s <=? re) eqn:H1, (re <? e) eqn:H2; to_prop;
      rewrite ?andb_false_r; try reflexivity; lia.
  - intros r. simpl.
    destruct (s <=? r_start r) eqn:H1, (r_start r <? e) eqn:H2; to_prop;
      rewrite ?andb_false_r; try reflexivity; lia.
Qed.

Lemma create_reversed_interval_committed_witness :
  5 <= 10
  /\ objects_create [mkRow 1 "x" "T" 0 (Some 50)] "x" "T" 10 (Some 5)
     = ([mkRow 1 "x" "T" 0 (Some 50); mkRow 2 "x" "T" 10 (Some 5)],
        Ok (mkAlias (Some 2%nat) "x" "T" 10 (Some 5))).
Proof.
  split; [lia|].
  apply (create_reversed_interval_committed
           [mkRow 1 "x" "T" 0 (Some 50)] "x" "T" 10 5).
  lia.
Defined.

(** C4 (counterexample).  Creating the reversed interval [[10, 5)] and the
    zero-length interval [[10, 10)] on an empty table commits both. *)
Lemma reversed_interval_not_rejected :
  objects_create [] "x" "T" 10 (Some 5)
  = ([mkRow 1 "x" "T" 10 (Some 5)], Ok (mkAlias (Some 1%nat) "x" "T" 10 (Some 5)))
  /\ objects_create [] "x" "T" 10 (Some 10)
     = ([mkRow 1 "x" "T" 10 (Some 10)],
        Ok (mkAlias (Some 1%nat) "x" "T" 10 (Some 10))).
Proof. split; reflexivity. Qed.

(** *** Re-saving a record *)

Lemma matched_filter (self : Alias) (db : Table) :
  matched self db ->
  truthy (objects_filter [alias_eq (alias self); target_eq (target self);
                          start_eq (start self)] db) = true.
Proof.
  intros (r & Hin & Ha & Ht & Hs). apply truthy_iff. exists r.
  apply in_objects_filter. split; [assumption|].
  simpl. rewrite Ha, Ht, Hs, !String.eqb_refl, Z.eqb_refl. reflexivity.
Qed.

Lemma save_matched (db : Table) (self : Alias) (kw : kwargs) :
  matched self db -> save db self kw = model_save db self kw.
Proof. intros H. unfold save. now rewrite matched_filter. Qed.

(** [save] either is the base save or raises the overlap error. *)
Lemma save_cases (db : Table) (self : Alias) (kw : kwargs) :
  save db self kw = model_save db self kw
  \/ save db self kw = (db, Raise (ValueError overlap_msg)).
Proof.
  unfold save. destruct (truthy _); [now left|].
  destruct (end_ self); cbv zeta;
    match goal with |- context [if ?b then _ else _] => destruct b end;
    auto.
Qed.

Lemma model_save_update_end (db : Table) (self : Alias) :
  model_save db self (mkKwargs false (Some ["end"]))
  = match pk self with
    | None => (db, Raise (ValueError
                 "Cannot force an update in save() with no primary key."))
    | Some i => if has_id i db
                then (update_where_id i ["end"] self db, Ok self)
                else (db, Raise DatabaseError)
    end.
Proof. reflexivity. Qed.




(** ** [__str__]: a record read at an instant *)

(** C5 (amended).  For every record and every instant [t], reading the
    record at [t] gives exactly one of three outcomes: the record's target
    string when its interval contains [t], the failure "not active yet"
    when [t] is before its start, and the failure "no longer active" when
    [t] is at or after its start and at or past its bounded end. *)
Theorem str_at_trichotomy (self : Alias) (t : datetime) :
  (str_at self t = Ok (Some (target self))
   <-> contains (start self) (end_ self) t = true)
  /\ (str_at self t = Raise (ValueError not_yet_msg) <-> t < start self)
  /\ (str_at self t = Raise (ValueError no_longer_msg)
      <-> start self <= t /\ exists e, end_ self = Some e /\ e <= t)
  /\ (str_at self t = Ok (Some (target self))
      \/ str_at self t = Raise (ValueError not_yet_msg)
      \/ str_at self t = Raise (ValueError no_longer_msg)).
Proof.
  unfold str_at, __str__, contains, lt_end.
  destruct (end_ self) as [e|]; simpl;
    rewrite ?andb_false_r, ?andb_true_r; simpl.
  - destruct (start self <=? t) eqn:Hs, (t <? start self) eqn:Hn,
      (t <? e) eqn:He, (e <=? t) eqn:Hl; to_prop; simpl;
      try lia;
      repeat split; try discriminate; try lia; auto;
      try (intros; exfalso; lia);
      try (intros (_ & e' & He' & Hle); inversion He'; subst; lia);
      try (exists e; split; [reflexivity | lia]).
  - destruct (start self <=? t) eqn:Hs, (t <? start self) eqn:Hn;
      to_prop; simpl; try lia;
      repeat split; try discriminate; try lia; auto;
      try (intros (_ & e' & He' & _); discriminate).
Qed.

(** C5 (counterexample).  The record of alias "y" for target "T", read at
    an instant its interval contains, yields the target "T" and not the
    alias string. *)
Lemma str_at_returns_target :
  contains 0 None 1 = true
  /\ str_at (mkAlias (Some 1%nat) "y" "T" 0 None) 1 = Ok (Some "T")
  /\ str_at (mkAlias (Some 1%nat) "y" "T" 0 None) 1
     <> Ok (Some (alias (mkAlias (Some 1%nat) "y" "T" 0 None))).
Proof. repeat split. discriminate. Qed.

(** With a clock that advances between the calls of [timezone.now()], an
    open-ended record read just as it starts reaches the comparison of an
    instant with [None]. *)
Example str_clock_race :
  __str__ (mkAlias (Some 1%nat) "y" "T" 5 None)
          (fun k => if (k =? 0)%nat then 4 else 5)
  = Raise TypeError.
Proof. reflexivity. Qed.

(** ** [get_aliases] *)

Section GetAliasesFacts.

Variable strptime : string -> string -> option datetime.

Lemma bounded_loop_spec (from_ to : datetime) (qs : list Row)
    (acc : list string) :
  bounded_loop from_ to qs acc
  = if existsb (open_in_range from_) qs
    then Raise TypeError
    else Ok (acc ++ map r_alias (filter (within from_ to) qs)).
Proof.
  revert acc. induction qs as [|r qs IH]; intros acc; simpl.
  - now rewrite app_nil_r.
  - unfold open_in_range at 1, within at 1.
    destruct (from_ <=? r_start r); simpl; [|apply IH].
    destruct (r_end r) as [e|]; simpl; [|reflexivity].
    destruct (e <=? to); rewrite IH; [|reflexivity].
    destruct (existsb _ qs); [reflexivity|].
    now rewrite <- app_assoc.
Qed.

Lemma filter_target_within (tgt : string) (from_ to : datetime) (db : Table) :
  filter (within from_ to) (objects_filter [target_eq tgt] db)
  = filter (fun r => String.eqb (r_target r) tgt && within from_ to r) db.
Proof.
  unfold objects_filter.
  rewrite (filter_ext (fun r => forallb (matches r) [target_eq tgt])
                      (fun r => String.eqb (r_target r) tgt))
    by (intros r; simpl; apply andb_true_r).
  induction db as [|r db IH]; simpl; auto.
  destruct (r_target r =? tgt)%string; simpl; [|assumption].
  now rewrite IH.
Qed.

Lemma get_aliases_bounded_eq (db : Table) (tgt : string) (start end' : pyval)
    (from_ to : datetime) :
  parse_start strptime start = Ok from_ ->
  parse_end strptime end' = Ok to ->
  get_aliases strptime db tgt start end'
  = bounded_loop from_ to (objects_filter [target_eq tgt] db) [].
Proof.
  intros Hs He. unfold get_aliases. rewrite Hs.
  destruct end'; try discriminate He; now rewrite He.
Qed.

Lemma existsb_open_in_range (tgt : string) (from_ : datetime) (db : Table) :
  existsb (open_in_range from_) (objects_filter [target_eq tgt] db) = true
  <-> exists r, In r db /\ r_target r = tgt /\ r_end r = None
                /\ from_ <= r_start r.
Proof.
  rewrite existsb_exists. split.
  - intros (r & Hin & Ho). apply in_objects_filter in Hin.
    destruct Hin as [Hin Ht]. simpl in Ht. unfold open_in_range in Ho.
    to_prop. exists r. repeat split; auto.
    destruct (r_end r); [discriminate | reflexivity].
  - intros (r & Hin & Ht & He & Hs). exists r. split.
    + apply in_objects_filter. split; [assumption|].
      simpl. now rewrite Ht, String.eqb_refl.
    + unfold open_in_range. rewrite He. to_bool; [lia | reflexivity].
Qed.

(** C3 (amended).  For every bounded query range [[from, to)], when no
    open-ended record of the target starts at or after [from], the range
    query returns exactly the aliases of the target's records that lie
    inside the query range ([record.start >= from] and
    [record.end <= to]), in table order. *)
Theorem get_aliases_bounded (db : Table) (tgt : string) (start end' : pyval)
    (from_ to : datetime) :
  parse_start strptime start = Ok from_ ->
  parse_end strptime end' = Ok to ->
  (forall r, In r db -> r_target r = tgt -> from_ <= r_start r ->
             r_end r <> None) ->
  get_aliases strptime db tgt start end'
  = Ok (map r_alias
          (filter (fun r => String.eqb (r_target r) tgt && within from_ to r)
                  db)).
Proof.
  intros Hs He Hb. rewrite (get_aliases_bounded_eq _ _ _ _ _ _ Hs He).
  rewrite bounded_loop_spec.
  destruct (existsb _ _) eqn:Hex.
  - apply existsb_open_in_range in Hex.
    destruct Hex as (r & Hin & Ht & Hn & Hge).
    now destruct (Hb r Hin Ht Hge).
  - rewrite filter_target_within. reflexivity.
Qed.

(** C9 (amended).  With a start and a non-None end bound that are accepted,
    the range query raises [TypeError], instead of returning a list,
    exactly when the target has a committed open-ended record whose start
    is at or after the query's [from]; an open-ended record that starts
    before [from] is passed over by the short-circuiting [and]. *)
Theorem get_aliases_open_record_type_error (db : Table) (tgt : string)
    (start end' : pyval) (from_ to : datetime) :
  parse_start strptime start = Ok from_ ->
  parse_end strptime end' = Ok to ->
  (get_aliases strptime db tgt start end' = Raise TypeError
   <-> exists r, In r db /\ r_target r = tgt /\ r_end r = None
                 /\ from_ <= r_start r).
Proof.
  intros Hs He. rewrite (get_aliases_bounded_eq _ _ _ _ _ _ Hs He).
  rewrite bounded_loop_spec, <- existsb_open_in_range.
  destruct (existsb _ _); split; auto; discriminate.
Qed.

End GetAliasesFacts.

Lemma get_aliases_bounded_witness :
  parse_start no_strptime (PyDatetime 100) = Ok 100
  /\ parse_end no_strptime (PyDatetime 110) = Ok 110
  /\ get_aliases no_strptime
       [mkRow 1 "a" "T" 101 (Some 105); mkRow 2 "b" "T" 95 (Some 130);
        mkRow 3 "c" "T" 90 None; mkRow 4 "d" "U" 102 (Some 103)]
       "T" (PyDatetime 100) (PyDatetime 110)
     = Ok ["a"].
Proof.
  split; [reflexivity|]. split; [reflexivity|].
  apply (get_aliases_bounded no_strptime
           [mkRow 1 "a" "T" 101 (Some 105); mkRow 2 "b" "T" 95 (Some 130);
            mkRow 3 "c" "T" 90 None; mkRow 4 "d" "U" 102 (Some 103)]
           "T" (PyDatetime 100) (PyDatetime 110) 100 110 eq_refl eq_refl).
  intros r [<- | [<- | [<- | [<- | []]]]] Ht Hge; simpl in *;
    try discriminate; lia.
Defined.

(** C3 (counterexample).  With D0 = 100 and days as units: over the single
    record [[D0-5, D0+30)], which contains the query range [[D0, D0+10)],
    the query returns the empty list; over the single record
    [[D0+1, D0+5)], which does not contain it, the query returns the
    record's alias. *)
Lemma get_aliases_not_containment :
  contains_range 95 (Some 130) 100 110 = true
  /\ get_aliases no_strptime [mkRow 1 "a" "T" 95 (Some 130)] "T"
       (PyDatetime 100) (PyDatetime 110) = Ok []
  /\ contains_range 101 (Some 105) 100 110 = false
  /\ get_aliases no_strptime [mkRow 1 "a" "T" 101 (Some 105)] "T"
       (PyDatetime 100) (PyDatetime 110) = Ok ["a"].
Proof. repeat split. Qed.

Lemma get_aliases_open_record_type_error_witness :
  parse_start no_strptime (PyDatetime 5) = Ok 5
  /\ parse_end no_strptime (PyDatetime 10) = Ok 10
  /\ get_aliases no_strptime
       [mkRow 1 "a" "T" 6 (Some 8); mkRow 2 "b" "T" 7 None]
       "T" (PyDatetime 5) (PyDatetime 10)
     = Raise TypeError.
Proof.
  split; [reflexivity|]. split; [reflexivity|].
  apply (proj2 (get_aliases_open_record_type_error no_strptime
                  [mkRow 1 "a" "T" 6 (Some 8); mkRow 2 "b" "T" 7 None]
                  "T" (PyDatetime 5) (PyDatetime 10) 5 10 eq_refl eq_refl)).
  exists (mkRow 2 "b" "T" 7 None). simpl. repeat split; [auto | lia].
Defined.

(** C9 (counterexample).  The target has a committed open-ended record,
    the end bound is not None, and the query returns a list: the record
    starts before [from], so its end is never compared. *)
Lemma get_aliases_skips_early_open_record :
  get_aliases no_strptime [mkRow 1 "a" "T" 0 None] "T"
    (PyDatetime 5) (PyDatetime 10) = Ok [].
Proof. reflexivity. Qed.

(** ** [alias_replace] *)

Lemma model_save_raise_keeps_table (db db' : Table) (self : Alias)
    (kw : kwargs) (x : exn) :
  model_save db self kw = (db', Raise x) -> db' = db.
Proof.
  unfold model_save.
  destruct (update_fields kw) as [[|f fs]|]; try discriminate.
  - destruct (force_insert kw); [intros H; now inversion H|].
    destruct (negb _); [intros H; now inversion H|].
    destruct (pk self); [|intros H; now inversion H].
    destruct (has_id _ _); intros H; now inversion H.
  - destruct (pk self); [|discriminate].
    destruct (has_id _ _); [|discriminate].
    destruct (force_insert kw); intros H; now inversion H.
Qed.

Lemma save_raise_keeps_table (db db' : Table) (self : Alias) (kw : kwargs)
    (x : exn) :
  save db self kw = (db', Raise x) -> db' = db.
Proof.
  destruct (save_cases db self kw) as [-> | ->].
  - apply model_save_raise_keeps_table.
  - intros H. now inversion H.
Qed.

Lemma create_ok (db db' : Table) (a t : string) (s : datetime)
    (e : option datetime) (o : Alias) :
  objects_create db a t s e = (db', Ok o) ->
  db' = db ++ [mkRow (next_id db) a t s e]
  /\ o = mkAlias (Some (next_id db)) a t s e.
Proof.
  unfold objects_create.
  destruct (save_cases db (mkAlias None a t s e) (mkKwargs true None))
    as [-> | ->]; [|discriminate].
  rewrite model_save_fresh. intros H. now inversion H.
Qed.

Lemma save_update_end_ok (db db1 : Table) (self self1 : Alias) :
  save db self update_end_kwargs = (db1, Ok self1) ->
  self1 = self
  /\ exists i, pk self = Some i /\ has_id i db = true
               /\ db1 = update_where_id i ["end"] self db.
Proof.
  unfold update_end_kwargs.
  destruct (save_cases db self (mkKwargs false (Some ["end"])))
    as [-> | ->]; [|discriminate].
  rewrite model_save_update_end.
  destruct (pk self) as [i|]; [|discriminate].
  destruct (has_id i db) eqn:Hid; [|discriminate].
  intros H. inversion H. split; [reflexivity|]. now exists i.
Qed.

Lemma update_end_committed (i : nat) (self : Alias) (db : Table) :
  has_id i db = true ->
  end_committed i (end_ self) (update_where_id i ["end"] self db).
Proof.
  intros Hid. apply has_id_iff in Hid. destruct Hid as (r & Hin & Hr).
  unfold update_where_id. split.
  - exists (update_row ["end"] self r). split; [|exact Hr].
    apply in_map_iff. exists r. split; [|assumption].
    now rewrite Hr, Nat.eqb_refl.
  - intros r' Hin' Hr'. apply in_map_iff in Hin'.
    destruct Hin' as (r0 & Heq & _).
    destruct (Nat.eqb (id r0) i) eqn:E.
    + now subst r'.
    + subst r'. apply Nat.eqb_neq in E. contradiction.
Qed.

Lemma end_committed_app (i : nat) (e : option datetime) (db : Table)
    (r : Row) :
  end_committed i e db -> id r = next_id db -> end_committed i e (db ++ [r]).
Proof.
  intros [(r0 & Hin & Hr0) Hall] Hr. split.
  - exists r0. split; [apply in_or_app; now left | assumption].
  - intros r' Hin' Hr'. apply in_app_or in Hin'.
    destruct Hin' as [Hin' | [<- | []]]; [now apply Hall|].
    pose proof (next_id_above db r0 Hin). lia.
Qed.

Lemma objects_get_alias (new : string) (db : Table) (found : Alias) :
  objects_get [alias_eq new] db = Ok found -> alias found = new.
Proof.
  unfold objects_get.
  destruct (objects_filter [alias_eq new] db) as [|r [|r' l]] eqn:E;
    try discriminate.
  intros H. inversion H. simpl.
  assert (Hin : In r (objects_filter [alias_eq new] db))
    by (rewrite E; now left).
  apply in_objects_filter in Hin. destruct Hin as [_ Hm].
  simpl in Hm. now to_prop.
Qed.

(** C6 (amended).  After [alias_replace] succeeds it has returned the new
    alias, the instance's end equals [at], the committed row of the
    instance has end [at], and a new committed record (new alias, the
    instance's target, start [at], end None) exists.  If creating the new
    record fails, the call fails with that error and the narrowing is
    kept, not undone: the instance and its committed row still have end
    [at]. *)
Theorem alias_replace_commits (db : Table) (existing_alias : Alias)
    (replace_at : datetime) (new_alias_value : string) :
  (forall db' existing' v,
     alias_replace db existing_alias replace_at new_alias_value
     = (db', existing', Ok v) ->
     v = new_alias_value
     /\ end_ existing' = Some replace_at
     /\ (exists i, pk existing_alias = Some i
                   /\ end_committed i (Some replace_at) db')
     /\ exists r, In r db' /\ r_alias r = new_alias_value
                  /\ r_target r = target existing_alias
                  /\ r_start r = replace_at /\ r_end r = None)
  /\ (forall db1 existing1 x,
        save db (set_end existing_alias (Some replace_at)) update_end_kwargs
        = (db1, Ok existing1) ->
        snd (objects_create db1 new_alias_value (target existing_alias)
                            replace_at None) = Raise x ->
        alias_replace db existing_alias replace_at new_alias_value
        = (db1, existing1, Raise x)
        /\ end_ existing1 = Some replace_at
        /\ exists i, pk existing_alias = Some i
                     /\ end_committed i (Some replace_at) db1).
Proof.
  split.
  - intros db' existing' v. unfold alias_replace.
    fold update_end_kwargs.
    destruct (save db _ update_end_kwargs) as [db1 [ex1|x]] eqn:Hsave;
      [|discriminate].
    apply save_update_end_ok in Hsave.
    destruct Hsave as [-> (i & Hpk & Hid & ->)].
    cbn [target set_end].
    destruct (objects_create _ _ _ _ _) as [db2 [n|x]] eqn:Hc;
      [|discriminate].
    apply create_ok in Hc. destruct Hc as [-> ->].
    destruct (objects_get _ _) as [found|x] eqn:Hg; [|discriminate].
    intros H. inversion H; subst db' existing' v. clear H.
    split; [now apply objects_get_alias in Hg|].
    split; [reflexivity|]. split.
    + exists i. split; [exact Hpk|].
      apply end_committed_app; [|reflexivity].
      apply (update_end_committed i (set_end existing_alias (Some replace_at))
                                  db Hid).
    + eexists. split; [apply in_or_app; right; now left|].
      simpl. auto.
  - intros db1 existing1 x Hsave Hc. unfold alias_replace.
    fold update_end_kwargs. rewrite Hsave.
    apply save_update_end_ok in Hsave.
    destruct Hsave as [-> (i & Hpk & Hid & ->)].
    cbn [target set_end] in *.
    destruct (objects_create _ _ _ _ _) as [db2 [n|x']] eqn:Hc';
      simpl in Hc; [discriminate|].
    inversion Hc; subst x'.
    apply save_raise_keeps_table in Hc'. subst db2.
    split; [reflexivity|]. split; [reflexivity|].
    exists i. split; [exact Hpk|].
    apply (update_end_committed i (set_end existing_alias (Some replace_at))
                                db Hid).
Qed.

Lemma alias_replace_commits_witness :
  alias_replace [mkRow 1 "a" "T" 0 None; mkRow 2 "b" "T" 30 None]
                (mkAlias (Some 1%nat) "a" "T" 0 None) 20 "b"
  = ([mkRow 1 "a" "T" 0 (Some 20); mkRow 2 "b" "T" 30 None],
     mkAlias (Some 1%nat) "a" "T" 0 (Some 20),
     Raise (ValueError overlap_msg))
  /\ end_ (mkAlias (Some 1%nat) "a" "T" 0 (Some 20)) = Some 20
  /\ exists i, Some 1%nat = Some i
               /\ end_committed i (Some 20)
                    [mkRow 1 "a" "T" 0 (Some 20); mkRow 2 "b" "T" 30 None].
Proof.
  apply (proj2 (alias_replace_commits
                  [mkRow 1 "a" "T" 0 None; mkRow 2 "b" "T" 30 None]
                  (mkAlias (Some 1%nat) "a" "T" 0 None) 20 "b")
               [mkRow 1 "a" "T" 0 (Some 20); mkRow 2 "b" "T" 30 None]
               (mkAlias (Some 1%nat) "a" "T" 0 (Some 20))
               (ValueError overlap_msg) eq_refl eq_refl).
Defined.

(** C6 (counterexample).  The record "a" of target "T" is open-ended and a
    record of key ("b", "T") starts later, at 30.  Replacing "a" at 20 by
    "b" narrows "a" and then fails to create the new record; the instance
    and its row keep the end 20 they did not have before the call. *)
Lemma alias_replace_no_rollback :
  end_ (mkAlias (Some 1%nat) "a" "T" 0 None) = None
  /\ snd (objects_create [mkRow 1 "a" "T" 0 (Some 20); mkRow 2 "b" "T" 30 None]
                         "b" "T" 20 None)
     = Raise (ValueError overlap_msg)
  /\ alias_replace [mkRow 1 "a" "T" 0 None; mkRow 2 "b" "T" 30 None]
                   (mkAlias (Some 1%nat) "a" "T" 0 None) 20 "b"
     = ([mkRow 1 "a" "T" 0 (Some 20); mkRow 2 "b" "T" 30 None],
        mkAlias (Some 1%nat) "a" "T" 0 (Some 20),
        Raise (ValueError overlap_msg)).
Proof. repeat split. Qed.

Lemma in_update_end (i : nat) (self : Alias) (db : Table) (r : Row) :
  In r (update_where_id i ["end"] self db) ->
  exists r0, In r0 db /\ id r = id r0 /\ r_alias r = r_alias r0
             /\ r_target r = r_target r0 /\ r_start r = r_start r0.
Proof.
  unfold update_where_id. intros H. apply in_map_iff in H.
  destruct H as (r0 & Heq & Hin). exists r0. split; [assumption|].
  destruct (Nat.eqb (id r0) i); subst r; simpl; auto.
Qed.

Lemma in_update_end_inv (i : nat) (self : Alias) (db : Table) (r0 : Row) :
  In r0 db ->
  exists r, In r (update_where_id i ["end"] self db)
            /\ r_alias r = r_alias r0.
Proof.
  intros Hin.
  exists (if Nat.eqb (id r0) i then update_row ["end"] self r0 else r0).
  split.
  - unfold update_where_id. apply in_map_iff. now exists r0.
  - now destruct (Nat.eqb (id r0) i).
Qed.

Lemma filter_alias_unused (new : string) (db : Table) :
  (forall r, In r db -> r_alias r <> new) ->
  objects_filter [alias_eq new] db = [].
Proof.
  intros H. unfold objects_filter. induction db as [|r db IH]; simpl; auto.
  assert (Hr : (r_alias r =? new)%string = false).
  { apply String.eqb_neq. apply H. now left. }
  rewrite Hr. simpl. apply IH. intros r' H'. apply H. now right.
Qed.

Lemma existsb_false_in (f : Row -> bool) (db : Table) :
  (forall r, In r db -> f r = false) -> existsb f db = false.
Proof.
  intros H. induction db as [|r db IH]; simpl; auto.
  rewrite (H r) by now left. apply IH. intros r' H'. apply H. now right.
Qed.

(** C7 (amended).  [alias_replace] does not compare the split point with
    the start of the record: for a committed record and a new alias no
    record uses yet, a split point at or before the record's start is
    accepted, the record's end is narrowed to it (its interval is left
    empty or reversed) and the new record is committed from it. *)
Theorem alias_replace_no_start_check (db : Table) (existing_alias : Alias)
    (i : nat) (replace_at : datetime) (new_alias_value : string) :
  pk existing_alias = Some i ->
  has_id i db = true ->
  matched existing_alias db ->
  (forall r, In r db -> r_alias r <> new_alias_value) ->
  replace_at <= start existing_alias ->
  alias_replace db existing_alias replace_at new_alias_value
  = (update_where_id i ["end"] (set_end existing_alias (Some replace_at)) db
       ++ [mkRow (next_id db) new_alias_value (target existing_alias)
                 replace_at None],
     set_end existing_alias (Some replace_at),
     Ok new_alias_value).
Proof.
  intros Hpk Hid Hm Hnew _. unfold alias_replace.
  set (ex1 := set_end existing_alias (Some replace_at)).
  assert (Hm1 : matched ex1 db) by exact Hm.
  rewrite (save_matched _ _ _ Hm1), model_save_update_end.
  cbn [pk ex1 set_end]. rewrite Hpk, Hid. cbn [target].
  set (db1 := update_where_id i ["end"] ex1 db).
  assert (Hnew1 : forall r, In r db1 -> r_alias r <> new_alias_value).
  { intros r Hin. apply in_update_end in Hin.
    destruct Hin as (r0 & Hin0 & _ & Ha & _). rewrite Ha. now apply Hnew. }
  rewrite create_unmatched.
  - rewrite existsb_false_in.
    + unfold objects_get, objects_filter. rewrite filter_app.
      fold (objects_filter [alias_eq new_alias_value] db1).
      rewrite (filter_alias_unused _ _ Hnew1). simpl.
      rewrite String.eqb_refl. simpl.
      unfold db1. now rewrite next_id_update.
    + intros r Hin. unfold detected.
      destruct (same_key _ _ r) eqn:Hk; [|reflexivity].
      apply same_key_iff in Hk. destruct Hk as [Ha _].
      now destruct (Hnew1 r Hin).
  - intros r Hin Hk. apply same_key_iff in Hk. destruct Hk as [Ha _].
    now destruct (Hnew1 r Hin).
Qed.

Lemma alias_replace_no_start_check_witness :
  10 <= start (mkAlias (Some 1%nat) "a" "T" 10 None)
  /\ alias_replace [mkRow 1 "a" "T" 10 None]
                   (mkAlias (Some 1%nat) "a" "T" 10 None) 10 "b"
     = ([mkRow 1 "a" "T" 10 (Some 10); mkRow 2 "b" "T" 10 None],
        mkAlias (Some 1%nat) "a" "T" 10 (Some 10),
        Ok "b").
Proof.
  split; [simpl; lia|].
  apply (alias_replace_no_start_check
           [mkRow 1 "a" "T" 10 None]
           (mkAlias (Some 1%nat) "a" "T" 10 None) 1%nat 10 "b"
           eq_refl eq_refl).
  - exists (mkRow 1 "a" "T" 10 None). simpl. repeat split. now left.
  - intros r [<- | []]. simpl. discriminate.
  - simpl. lia.
Defined.

(** C7 (counterexample).  Splitting the record [[10, +infinity)] at 5,
    before its start, raises nothing: the call returns the new alias,
    having committed the end 5 on the record and the new record from 5. *)
Lemma alias_replace_before_start_succeeds :
  5 <= start (mkAlias (Some 1%nat) "a" "T" 10 None)
  /\ alias_replace [mkRow 1 "a" "T" 10 None]
                   (mkAlias (Some 1%nat) "a" "T" 10 None) 5 "b"
     = ([mkRow 1 "a" "T" 10 (Some 5); mkRow 2 "b" "T" 5 None],
        mkAlias (Some 1%nat) "a" "T" 10 (Some 5),
        Ok "b").
Proof. split; [simpl; lia | reflexivity]. Qed.

(** ** The repository's tests, replayed on the model

    Instants are counted in days and "now" is day 1000. *)

Example test_end_is_exclusive :
  snd (objects_create [mkRow 1 "some-alias" "some-target" 950 (Some 1000)]
                      "some-alias" "some-target" 1000 None)
  = Ok (mkAlias (Some 2%nat) "some-alias" "some-target" 1000 None).
Proof. reflexivity. Qed.

Example test_two_same_aliases_of_the_same_target :
  snd (objects_create [mkRow 1 "some-alias" "some-target" 970 (Some 985)]
                      "some-alias" "some-target" 1000 (Some 1001))
  = Ok (mkAlias (Some 2%nat) "some-alias" "some-target" 1000 (Some 1001)).
Proof. reflexivity. Qed.

Example test_overlap_at_start :
  snd (objects_create [mkRow 1 "some-alias" "some-target" 1000 (Some 1050)]
                      "some-alias" "some-target" 999 (Some 1049))
  = Raise (ValueError overlap_msg).
Proof. reflexivity. Qed.

Example test_overlap_at_end :
  snd (objects_create [mkRow 1 "some-alias" "some-target" 1000 (Some 1050)]
                      "some-alias" "some-target" 1001 (Some 1051))
  = Raise (ValueError overlap_msg).
Proof. reflexivity. Qed.

Example test_create_new_alias_not_available_yet :
  str_at (mkAlias (Some 1%nat) "new-alias" "new-target" 1001 (Some 1030)) 1000
  = Raise (ValueError not_yet_msg).
Proof. reflexivity. Qed.

Example test_create_new_alias_no_longer_available :
  str_at (mkAlias (Some 1%nat) "new-alias" "new-target" 999 (Some 1000)) 1000
  = Raise (ValueError no_longer_msg).
Proof. reflexivity. Qed.

Example test_get_aliases_returns_two_values :
  get_aliases no_strptime
    [mkRow 1 "some-alias" "some-target" 1000 None;
     mkRow 2 "another-alias" "some-target" 1000 None]
    "some-target" (PyDatetime 999) PyNone
  = Ok ["some-alias"; "another-alias"].
Proof. reflexivity. Qed.

Example test_alias_replace_end_is_date :
  alias_replace [mkRow 1 "first-alias" "some-new-target" 1000 (Some 1030)]
                (mkAlias (Some 1%nat) "first-alias" "some-new-target" 1000
                         (Some 1030))
                1020 "second-alias"
  = ([mkRow 1 "first-alias" "some-new-target" 1000 (Some 1020);
      mkRow 2 "second-alias" "some-new-target" 1020 None],
     mkAlias (Some 1%nat) "first-alias" "some-new-target" 1000 (Some 1020),
     Ok "second-alias").
Proof. reflexivity. Qed.

(** * Further properties of the module *)

(** ** [__repr__] and the clock *)

(** X1.  On a bounded record [__repr__] gives what [__str__] gives.  On an
    open-ended record it returns the target at every instant, also before
    the record has started, where [__str__] raises "not active yet". *)
Theorem repr_at_vs_str_at (self : Alias) (t : datetime) :
  (forall e, end_ self = Some e -> repr_at self t = str_at self t)
  /\ (end_ self = None ->
      repr_at self t = Ok (Some (target self))
      /\ (t < start self ->
          str_at self t = Raise (ValueError not_yet_msg))).
Proof.
  unfold repr_at, __repr__, str_at, __str__. split.
  - intros e He. rewrite He. rewrite andb_false_r.
    destruct (start self <=? t) eqn:Hs; simpl; [|reflexivity].
    destruct (t <? e); reflexivity.
  - intros He. rewrite He. split; [reflexivity|].
    intros Hlt. rewrite andb_true_r.
    replace (start self <=? t) with false by (symmetry; apply Z.leb_gt; lia).
    replace (t <? start self) with true by (symmetry; apply Z.ltb_lt; lia).
    reflexivity.
Qed.

Lemma repr_at_vs_str_at_witness :
  repr_at (mkAlias (Some 1%nat) "y" "T" 10 None) 3 = Ok (Some "T")
  /\ (3 < 10 -> str_at (mkAlias (Some 1%nat) "y" "T" 10 None) 3
                = Raise (ValueError not_yet_msg)).
Proof.
  apply (proj2 (repr_at_vs_str_at (mkAlias (Some 1%nat) "y" "T" 10 None) 3)
               eq_refl).
Defined.

(** X2.  When the clock passes neither the start nor the bounded end of
    the record between the calls of [timezone.now()], [__str__] gives what
    it gives at the first reading: it neither falls off its end nor
    compares an instant with None. *)
Theorem str_steady_clock (self : Alias) (now : nat -> datetime) :
  steady now (start self) ->
  (forall e, end_ self = Some e -> steady now e) ->
  __str__ self now = str_at self (now 0%nat).
Proof.
  intros Hs He. unfold str_at, __str__.
  rewrite !(Z.leb_antisym _ (start self)).
  rewrite (Hs 1%nat), (Hs 2%nat) by lia.
  destruct (end_ self) as [e|]; [|reflexivity].
  rewrite !(Z.leb_antisym _ e).
  rewrite (He e eq_refl 1%nat), (He e eq_refl 3%nat) by lia.
  reflexivity.
Qed.

Lemma str_steady_clock_witness :
  steady (fun k => 20 + Z.of_nat k) 10
  /\ __str__ (mkAlias (Some 1%nat) "y" "T" 10 (Some 30))
             (fun k => 20 + Z.of_nat k)
     = Ok (Some "T").
Proof.
  assert (H : forall b, b = 10 \/ b = 30 ->
                        steady (fun k => 20 + Z.of_nat k) b).
  { intros b Hb k Hk. cbv beta. change (20 + Z.of_nat 0) with 20.
    destruct (20 + Z.of_nat k <? b) eqn:E1, (20 <? b) eqn:E2;
      to_prop; try reflexivity; lia. }
  split; [apply H; now left|].
  apply (str_steady_clock (mkAlias (Some 1%nat) "y" "T" 10 (Some 30))
                          (fun k => 20 + Z.of_nat k)).
  - apply H. now left.
  - intros e He. inversion He. apply H. now right.
Defined.

(** ** [get_aliases] with an open query *)

Section GetAliasesOpen.

Variable strptime : string -> string -> option datetime.

Lemma open_loop_spec (from_ : datetime) (qs : list Row) (acc : list string) :
  open_loop from_ qs acc
  = acc ++ map r_alias (filter (fun r => from_ <=? r_start r) qs).
Proof.
  revert acc. induction qs as [|r qs IH]; intros acc; simpl.
  - now rewrite app_nil_r.
  - destruct (from_ <=? r_start r); rewrite IH; [|reflexivity].
    now rewrite <- app_assoc.
Qed.

Lemma filter_target_from (tgt : string) (from_ : datetime) (db : Table) :
  filter (fun r => from_ <=? r_start r) (objects_filter [target_eq tgt] db)
  = filter (fun r => String.eqb (r_target r) tgt && (from_ <=? r_start r)) db.
Proof.
  unfold objects_filter.
  rewrite (filter_ext (fun r => forallb (matches r) [target_eq tgt])
                      (fun r => String.eqb (r_target r) tgt))
    by (intros r; simpl; apply andb_true_r).
  induction db as [|r db IH]; simpl; auto.
  destruct (r_target r =? tgt)%string; simpl; [|assumption].
  now rewrite IH.
Qed.

(** X3.  With [end] None and a start that is accepted, the query never
    raises: it returns, in table order, the aliases of exactly the
    target's records that start at or after [from], whatever their end. *)
Theorem get_aliases_open (db : Table) (tgt : string) (start : pyval)
    (from_ : datetime) :
  parse_start strptime start = Ok from_ ->
  get_aliases strptime db tgt start PyNone
  = Ok (map r_alias
          (filter (fun r => String.eqb (r_target r) tgt
                            && (from_ <=? r_start r)) db)).
Proof.
  intros Hs. unfold get_aliases. rewrite Hs.
  rewrite open_loop_spec, filter_target_from. reflexivity.
Qed.

Lemma map_filter_incl (f g : Row -> bool) (qs : list Row) :
  (forall r, f r = true -> g r = true) ->
  incl (map r_alias (filter f qs)) (map r_alias (filter g qs))
  /\ (List.length (map r_alias (filter f qs))
      <= List.length (map r_alias (filter g qs)))%nat.
Proof.
  intros Hfg. induction qs as [|r qs [IHi IHl]]; simpl.
  - split; [apply incl_refl | lia].
  - destruct (f r) eqn:Hf.
    + rewrite (Hfg r Hf). simpl. split; [|lia].
      intros x [<- | Hx]; [now left | right; now apply IHi].
    + destruct (g r); simpl; split; auto; try lia.
      now apply incl_tl.
Qed.

(** X4.  A bound on the end only removes results: whenever the bounded
    query returns a list, every alias in it is in the list the open query
    from the same start returns, which is at least as long. *)
Theorem get_aliases_bounded_within_open (db : Table) (tgt : string)
    (start end' : pyval) (l : list string) :
  end' <> PyNone ->
  get_aliases strptime db tgt start end' = Ok l ->
  exists l', get_aliases strptime db tgt start PyNone = Ok l'
             /\ incl l l' /\ (List.length l <= List.length l')%nat.
Proof.
  intros Hne H. unfold get_aliases in *.
  destruct (parse_start strptime start) as [from_|x]; [|discriminate].
  eexists. split; [reflexivity|].
  assert (Hb : exists to, bounded_loop from_ to
                            (objects_filter [target_eq tgt] db) [] = Ok l).
  { destruct end'; try contradiction;
      destruct (parse_end strptime _) as [to|x]; try discriminate;
      now exists to. }
  destruct Hb as [to Hb]. rewrite bounded_loop_spec in Hb.
  destruct (existsb _ _); [discriminate|].
  inversion Hb. rewrite open_loop_spec. simpl.
  apply map_filter_incl. unfold within. intros r Hr.
  now apply andb_true_iff in Hr.
Qed.

End GetAliasesOpen.

Lemma get_aliases_open_witness :
  parse_start no_strptime (PyDatetime 5) = Ok 5
  /\ get_aliases no_strptime
       [mkRow 1 "a" "T" 6 (Some 8); mkRow 2 "b" "T" 7 None;
        mkRow 3 "c" "T" 4 None; mkRow 4 "d" "U" 9 None]
       "T" (PyDatetime 5) PyNone
     = Ok ["a"; "b"].
Proof.
  split; [reflexivity|].
  apply (get_aliases_open no_strptime
           [mkRow 1 "a" "T" 6 (Some 8); mkRow 2 "b" "T" 7 None;
            mkRow 3 "c" "T" 4 None; mkRow 4 "d" "U" 9 None]
           "T" (PyDatetime 5) 5 eq_refl).
Defined.

Lemma get_aliases_bounded_within_open_witness :
  PyDatetime 10 <> PyNone
  /\ exists l', get_aliases no_strptime
                  [mkRow 1 "a" "T" 6 (Some 8); mkRow 2 "b" "T" 7 (Some 12)]
                  "T" (PyDatetime 5) PyNone = Ok l'
                /\ incl ["a"] l' /\ (List.length ["a"] <= List.length l')%nat.
Proof.
  split; [discriminate|].
  apply (get_aliases_bounded_within_open no_strptime
           [mkRow 1 "a" "T" 6 (Some 8); mkRow 2 "b" "T" 7 (Some 12)]
           "T" (PyDatetime 5) (PyDatetime 10) ["a"]);
    [discriminate | reflexivity].
Defined.

(** ** What [save] does to the table *)

Lemma has_id_false (i : nat) (db : Table) :
  has_id i db = false -> ~ In i (map id db).
Proof.
  intros H Hin. apply in_map_iff in Hin. destruct Hin as (r & Hr & Hin).
  assert (Ht : has_id i db = true) by (apply has_id_iff; now exists r).
  congruence.
Qed.

Lemma next_id_fresh (db : Table) : ~ In (next_id db) (map id db).
Proof.
  intros Hin. apply in_map_iff in Hin. destruct Hin as (r & Hr & Hin).
  pose proof (next_id_above db r Hin). lia.
Qed.

(** The keys after a base save: unchanged, or one new key at the end. *)
Lemma model_save_ids (db db' : Table) (self : Alias) (kw : kwargs)
    (o : outcome Alias) :
  model_save db self kw = (db', o) ->
  map id db' = map id db
  \/ exists j, ~ In j (map id db) /\ map id db' = map id db ++ [j].
Proof.
  unfold model_save.
  destruct (update_fields kw) as [[|f fs]|].
  - intros H. inversion H. now left.
  - destruct (force_insert kw); [intros H; inversion H; now left|].
    destruct (negb _); [intros H; inversion H; now left|].
    destruct (pk self) as [i|]; [|intros H; inversion H; now left].
    destruct (has_id i db); intros H; inversion H; left;
      [apply map_id_update | reflexivity].
  - destruct (pk self) as [i|].
    + destruct (has_id i db) eqn:Hid.
      * destruct (force_insert kw); intros H; inversion H; left;
          [reflexivity | apply map_id_update].
      * intros H. inversion H. right. exists i.
        split; [now apply has_id_false|]. now rewrite map_app.
    + intros H. inversion H. right. exists (next_id db).
      split; [apply next_id_fresh|]. now rewrite map_app.
Qed.

Lemma save_ids (db db' : Table) (self : Alias) (kw : kwargs)
    (o : outcome Alias) :
  save db self kw = (db', o) ->
  map id db' = map id db
  \/ exists j, ~ In j (map id db) /\ map id db' = map id db ++ [j].
Proof.
  destruct (save_cases db self kw) as [-> | ->].
  - apply model_save_ids.
  - intros H. inversion H. now left.
Qed.

Lemma NoDup_snoc (l : list nat) (j : nat) :
  NoDup l -> ~ In j l -> NoDup (l ++ [j]).
Proof.
  intros Hnd Hj. induction Hnd as [|x l Hx Hnd IH]; simpl.
  - constructor; [intros [] | constructor].
  - constructor.
    + intros Hin. apply in_app_or in Hin.
      destruct Hin as [Hin | [<- | []]]; [contradiction|].
      apply Hj. now left.
    + apply IH. intros H. apply Hj. now right.
Qed.

(** X5.  Primary keys stay unique: when no two rows share a key before a
    save, whatever the instance and the keyword arguments and whether the
    save succeeds or raises, no two rows share a key after it. *)
Theorem save_keeps_keys_unique (db db' : Table) (self : Alias) (kw : kwargs)
    (o : outcome Alias) :
  NoDup (map id db) ->
  save db self kw = (db', o) ->
  NoDup (map id db').
Proof.
  intros Hnd H. apply save_ids in H.
  destruct H as [-> | (j & Hj & ->)]; [assumption|].
  now apply NoDup_snoc.
Qed.

Lemma save_keeps_keys_unique_witness :
  NoDup (map id [mkRow 1 "x" "T" 0 (Some 50); mkRow 4 "y" "T" 0 None])
  /\ NoDup (map id [mkRow 1 "x" "T" 0 (Some 50); mkRow 4 "y" "T" 0 None;
                    mkRow 5 "x" "T" 50 None]).
Proof.
  assert (H : NoDup (map id [mkRow 1 "x" "T" 0 (Some 50);
                             mkRow 4 "y" "T" 0 None])).
  { simpl. repeat constructor; simpl; intuition discriminate. }
  split; [exact H|].
  apply (save_keeps_keys_unique
           [mkRow 1 "x" "T" 0 (Some 50); mkRow 4 "y" "T" 0 None]
           _ (mkAlias None "x" "T" 50 None) (mkKwargs true None)
           (Ok (mkAlias (Some 5%nat) "x" "T" 50 None)) H eq_refl).
Defined.

Lemma model_save_frame (db db' : Table) (self : Alias) (kw : kwargs)
    (o : outcome Alias) (r : Row) :
  model_save db self kw = (db', o) ->
  In r db -> pk self <> Some (id r) -> In r db'.
Proof.
  intros H Hin Hpk.
  assert (Hup : forall i fs, pk self = Some i ->
                  In r (update_where_id i fs self db)).
  { intros i fs Hi. unfold update_where_id. apply in_map_iff.
    exists r. split; [|assumption].
    destruct (Nat.eqb (id r) i) eqn:E; [|reflexivity].
    apply Nat.eqb_eq in E. subst i. contradiction. }
  revert H. unfold model_save.
  destruct (update_fields kw) as [[|f fs]|].
  - intros H. inversion H; subst; assumption.
  - destruct (force_insert kw); [intros H; inversion H; subst; assumption|].
    destruct (negb _); [intros H; inversion H; subst; assumption|].
    destruct (pk self) as [i|] eqn:Hi;
      [|intros H; inversion H; subst; assumption].
    destruct (has_id i db); intros H; inversion H; subst; auto.
  - destruct (pk self) as [i|] eqn:Hi.
    + destruct (has_id i db).
      * destruct (force_insert kw); intros H; inversion H; subst; auto.
      * intros H. inversion H; subst. apply in_or_app. now left.
    + intros H. inversion H; subst. apply in_or_app. now left.
Qed.

(** X6.  A save touches no other record: every committed row whose key is
    not the instance's key is in the table afterwards, unchanged; and when
    the save raises, the table is the one before. *)
Theorem save_frame (db db' : Table) (self : Alias) (kw : kwargs)
    (o : outcome Alias) :
  save db self kw = (db', o) ->
  (forall r, In r db -> pk self <> Some (id r) -> In r db')
  /\ (forall x, o = Raise x -> db' = db).
Proof.
  intros H. split.
  - intros r Hin Hpk. destruct (save_cases db self kw) as [E | E];
      rewrite E in H.
    + now apply (model_save_frame _ _ _ _ _ _ H).
    + inversion H; subst; assumption.
  - intros x ->. now apply save_raise_keeps_table in H.
Qed.

Lemma save_frame_witness :
  In (mkRow 2 "a" "T" 10 (Some 30))
     [mkRow 1 "a" "T" 0 (Some 5); mkRow 2 "a" "T" 10 (Some 30)].
Proof.
  apply (proj1 (save_frame
                  [mkRow 1 "a" "T" 0 None; mkRow 2 "a" "T" 10 (Some 30)]
                  _ (mkAlias (Some 1%nat) "a" "T" 0 (Some 5))
                  update_end_kwargs
                  (Ok (mkAlias (Some 1%nat) "a" "T" 0 (Some 5))) eq_refl)).
  - right. now left.
  - simpl. discriminate.
Defined.

Lemma update_where_id_same (db : Table) (r : Row) :
  NoDup (map id db) -> In r db ->
  update_where_id (id r) concrete_fields (from_row r) db = db.
Proof.
  intros Hnd Hin. unfold update_where_id.
  rewrite <- (map_id db) at 2. apply map_ext_in.
  intros r' Hin'. destruct (Nat.eqb (id r') (id r)) eqn:E; [|reflexivity].
  apply Nat.eqb_eq in E.
  assert (r' = r).
  { clear - Hnd Hin Hin' E. induction db as [|x db IH]; [contradiction|].
    simpl in Hnd. inversion Hnd as [|? ? Hx Hnd']. subst.
    destruct Hin as [-> | Hin], Hin' as [-> | Hin']; auto.
    - exfalso. apply Hx. rewrite <- E. now apply in_map.
    - exfalso. apply Hx. rewrite E. now apply in_map. }
  subst r'. now destruct r.
Qed.

(** X7.  Loading a record and saving it back changes nothing: for a table
    with unique keys, saving the instance read from a committed row, with
    no keyword arguments, succeeds and leaves the table as it was. *)
Theorem save_loaded_record_is_identity (db : Table) (r : Row) :
  NoDup (map id db) -> In r db ->
  save db (from_row r) no_kwargs = (db, Ok (from_row r)).
Proof.
  intros Hnd Hin.
  assert (Hm : matched (from_row r) db) by (exists r; simpl; auto).
  rewrite (save_matched _ _ _ Hm). unfold model_save, no_kwargs. simpl.
  assert (Hid : has_id (id r) db = true) by (apply has_id_iff; now exists r).
  rewrite Hid. now rewrite update_where_id_same.
Qed.

Lemma save_loaded_record_is_identity_witness :
  save [mkRow 1 "a" "T" 0 (Some 5); mkRow 2 "a" "T" 10 None]
       (from_row (mkRow 2 "a" "T" 10 None)) no_kwargs
  = ([mkRow 1 "a" "T" 0 (Some 5); mkRow 2 "a" "T" 10 None],
     Ok (from_row (mkRow 2 "a" "T" 10 None))).
Proof.
  apply (save_loaded_record_is_identity
           [mkRow 1 "a" "T" 0 (Some 5); mkRow 2 "a" "T" 10 None]
           (mkRow 2 "a" "T" 10 None)).
  - simpl. repeat constructor; simpl; intuition discriminate.
  - right. now left.
Defined.

(** ** Inserting records from the latest to the earliest *)

Lemma overlaps_sym (s1 : datetime) (e1 : option datetime) (s2 : datetime)
    (e2 : option datetime) :
  overlaps s1 e1 s2 e2 = overlaps s2 e2 s1 e1.
Proof. unfold overlaps. apply andb_comm. Qed.

Lemma existsb_ext_rows (f g : Row -> bool) (db : Table) :
  (forall r, In r db -> f r = g r) -> existsb f db = existsb g db.
Proof.
  intros H. induction db as [|r db IH]; simpl; auto.
  rewrite (H r) by now left. f_equal. apply IH.
  intros r' H'. apply H. now right.
Qed.

Lemma existsb_false_elim (f : Row -> bool) (db : Table) (r : Row) :
  existsb f db = false -> In r db -> f r = false.
Proof.
  intros H Hin. destruct (f r) eqn:E; [|reflexivity].
  assert (existsb f db = true) by (apply existsb_exists; now exists r).
  congruence.
Qed.

Lemma detected_conflicts (a t : string) (s : datetime) (e : option datetime)
    (db : Table) :
  precedes_all a t s db ->
  existsb (detected a t s e) db = existsb (conflicts a t s e) db.
Proof.
  intros Hp. apply existsb_ext_rows. intros r Hin.
  destruct (same_key a t r) eqn:Hk.
  - destruct (Hp r Hin Hk) as [Hlt Hwf].
    assert (Hadj : r_end r <> Some s).
    { intros He. unfold well_formed in Hwf. rewrite He in Hwf.
      to_prop. lia. }
    unfold conflicts. rewrite Hk. simpl.
    destruct (overlaps s e (r_start r) (r_end r)) eqn:Ho.
    + apply overlaps_detected; auto. left. lia.
    + destruct (detected a t s e r) eqn:Hd; [|reflexivity].
      apply detected_overlaps in Hd; auto. destruct Hd. congruence.
  - unfold detected, conflicts. now rewrite Hk.
Qed.

(** X8.  When the candidate starts before every committed record of its
    key (and those are well-formed), the check of [save] is exact:
    creating the candidate raises the overlap error if it overlaps one of
    them and commits it otherwise; and if those records were pairwise
    disjoint, they and the new record still are. *)
Theorem create_before_all_exact (db : Table) (a t : string) (s : datetime)
    (e : option datetime) :
  precedes_all a t s db ->
  objects_create db a t s e
  = (if existsb (conflicts a t s e) db
     then (db, Raise (ValueError overlap_msg))
     else (db ++ [mkRow (next_id db) a t s e],
           Ok (mkAlias (Some (next_id db)) a t s e)))
  /\ (pairwise_disjoint a t db ->
      forall db' o, objects_create db a t s e = (db', Ok o) ->
                    pairwise_disjoint a t db').
Proof.
  intros Hp.
  assert (Hun : unmatched a t s db).
  { intros r Hin Hk. destruct (Hp r Hin Hk). lia. }
  assert (Heq : objects_create db a t s e
                = (if existsb (conflicts a t s e) db
                   then (db, Raise (ValueError overlap_msg))
                   else (db ++ [mkRow (next_id db) a t s e],
                         Ok (mkAlias (Some (next_id db)) a t s e)))).
  { rewrite (create_unmatched _ _ _ _ _ Hun).
    now rewrite (detected_conflicts _ _ _ _ _ Hp). }
  split; [exact Heq|].
  intros Hdis db' o Hc. rewrite Heq in Hc.
  destruct (existsb (conflicts a t s e) db) eqn:Hex; [discriminate|].
  inversion Hc; subst db' o. clear Hc.
  assert (Hnew : forall r, In r db -> same_key a t r = true ->
                   overlaps s e (r_start r) (r_end r) = false).
  { intros r Hin Hk. pose proof (existsb_false_elim _ _ r Hex Hin) as Hf.
    unfold conflicts in Hf. now rewrite Hk in Hf. }
  intros r1 r2 H1 H2 Hne K1 K2.
  apply in_app_or in H1. apply in_app_or in H2.
  destruct H1 as [H1 | [<- | []]], H2 as [H2 | [<- | []]].
  - now apply Hdis.
  - simpl. rewrite overlaps_sym. now apply Hnew.
  - simpl. now apply Hnew.
  - now destruct Hne.
Qed.

Lemma create_before_all_exact_witness :
  precedes_all "x" "T" 0 [mkRow 1 "x" "T" 10 (Some 20); mkRow 2 "x" "T" 20 None]
  /\ objects_create [mkRow 1 "x" "T" 10 (Some 20); mkRow 2 "x" "T" 20 None]
                    "x" "T" 0 (Some 10)
     = ([mkRow 1 "x" "T" 10 (Some 20); mkRow 2 "x" "T" 20 None;
         mkRow 3 "x" "T" 0 (Some 10)],
        Ok (mkAlias (Some 3%nat) "x" "T" 0 (Some 10))).
Proof.
  assert (Hp : precedes_all "x" "T" 0
                 [mkRow 1 "x" "T" 10 (Some 20); mkRow 2 "x" "T" 20 None]).
  { intros r [<- | [<- | []]] _; simpl; split; try reflexivity; lia. }
  split; [exact Hp|].
  apply (proj1 (create_before_all_exact _ "x" "T" 0 (Some 10) Hp)).
Defined.

(** ** Creating a record and looking it up by its alias *)

Lemma filter_alias_app (a : string) (db : Table) (r : Row) :
  r_alias r = a ->
  objects_filter [alias_eq a] (db ++ [r])
  = objects_filter [alias_eq a] db ++ [r].
Proof.
  intros Ha. unfold objects_filter. rewrite filter_app. simpl.
  now rewrite Ha, String.eqb_refl.
Qed.

(** X9.  [create] followed by [get(alias=...)]: when no committed record
    uses the alias string, creating a record with it always succeeds and
    the lookup by that alias returns the created record; when some
    committed record uses it already, under any target, every successful
    creation makes that lookup raise [MultipleObjectsReturned]. *)
Theorem create_then_get (db : Table) (a t : string) (s : datetime)
    (e : option datetime) :
  ((forall r, In r db -> r_alias r <> a) ->
   objects_create db a t s e
   = (db ++ [mkRow (next_id db) a t s e],
      Ok (mkAlias (Some (next_id db)) a t s e))
   /\ objects_get [alias_eq a] (db ++ [mkRow (next_id db) a t s e])
      = Ok (mkAlias (Some (next_id db)) a t s e))
  /\ ((exists r, In r db /\ r_alias r = a) ->
      forall db' o, objects_create db a t s e = (db', Ok o) ->
                    objects_get [alias_eq a] db'
                    = Raise MultipleObjectsReturned).
Proof.
  split.
  - intros Hnew. split.
    + rewrite create_unmatched.
      * rewrite existsb_false_in; [reflexivity|].
        intros r Hin. unfold detected.
        destruct (same_key a t r) eqn:Hk; [|reflexivity].
        apply same_key_iff in Hk. destruct Hk as [Ha _].
        now destruct (Hnew r Hin).
      * intros r Hin Hk. apply same_key_iff in Hk. destruct Hk as [Ha _].
        now destruct (Hnew r Hin).
    + unfold objects_get. rewrite filter_alias_app by reflexivity.
      now rewrite (filter_alias_unused _ _ Hnew).
  - intros (r & Hin & Ha) db' o Hc. apply create_ok in Hc.
    destruct Hc as [-> ->]. unfold objects_get.
    rewrite filter_alias_app by reflexivity.
    assert (Hf : In r (objects_filter [alias_eq a] db)).
    { apply in_objects_filter. split; [assumption|].
      simpl. now rewrite Ha, String.eqb_refl. }
    destruct (objects_filter [alias_eq a] db) as [|x [|y l]];
      [contradiction | reflexivity | reflexivity].
Qed.

Lemma create_then_get_witness :
  objects_get [alias_eq "b"]
    ([mkRow 1 "a" "T" 0 None] ++ [mkRow 2 "b" "T" 5 None])
  = Ok (mkAlias (Some 2%nat) "b" "T" 5 None)
  /\ objects_get [alias_eq "a"]
       [mkRow 1 "a" "T" 0 (Some 5); mkRow 2 "a" "U" 0 None]
     = Raise MultipleObjectsReturned.
Proof.
  split.
  - apply (fun H => proj2 (proj1 (create_then_get [mkRow 1 "a" "T" 0 None]
                                                  "b" "T" 5 None) H)).
    intros r [<- | []]. simpl. discriminate.
  - apply (proj2 (create_then_get [mkRow 1 "a" "T" 0 (Some 5)]
                                  "a" "U" 0 None)
                 (ex_intro _ (mkRow 1 "a" "T" 0 (Some 5))
                           (conj (or_introl eq_refl) eq_refl))
                 _ (mkAlias (Some 2%nat) "a" "U" 0 None) eq_refl).
Defined.

(** ** [alias_replace]: when it succeeds, when it fails, what it leaves *)

Lemma save_committed_update_end (db : Table) (self : Alias) (i : nat) :
  pk self = Some i -> has_id i db = true -> matched self db ->
  save db self update_end_kwargs
  = (update_where_id i ["end"] self db, Ok self).
Proof.
  intros Hpk Hid Hm. unfold update_end_kwargs.
  now rewrite (save_matched _ _ _ Hm), model_save_update_end, Hpk, Hid.
Qed.

(** Rows of the key [(a, t)] after an update of ends are rows of that key
    with the same start before it. *)
Lemma existsb_detected_update (a t : string) (s : datetime) (i : nat)
    (self : Alias) (db : Table) :
  existsb (detected a t s None) (update_where_id i ["end"] self db)
  = existsb (detected a t s None) db.
Proof.
  unfold update_where_id. induction db as [|r db IH]; simpl; auto.
  rewrite IH. f_equal. now destruct (Nat.eqb (id r) i).
Qed.

Lemma unmatched_update (a t : string) (s : datetime) (i : nat)
    (self : Alias) (db : Table) :
  unmatched a t s db -> unmatched a t s (update_where_id i ["end"] self db).
Proof.
  intros Hun r Hin Hk. apply in_update_end in Hin.
  destruct Hin as (r0 & Hin0 & _ & Ha & Ht & Hs).
  rewrite Hs. apply (Hun r0 Hin0).
  unfold same_key in *. now rewrite <- Ha, <- Ht.
Qed.

Lemma filter_alias_update (a : string) (i : nat) (self : Alias) (db : Table) :
  List.length (objects_filter [alias_eq a] (update_where_id i ["end"] self db))
  = List.length (objects_filter [alias_eq a] db).
Proof.
  unfold objects_filter, update_where_id.
  induction db as [|r db IH]; [reflexivity|]. cbn [map filter].
  assert (E : forallb (matches (if Nat.eqb (id r) i
                                then update_row ["end"] self r else r))
                      [alias_eq a]
              = forallb (matches r) [alias_eq a])
    by now destruct (Nat.eqb (id r) i).
  rewrite E. destruct (forallb (matches r) [alias_eq a]);
    cbn [List.length]; now rewrite IH.
Qed.

(** X10.  The ordinary use: for a committed record, a new alias no record
    uses yet and a split point after the record's start, [alias_replace]
    succeeds and returns the new alias; the record's row gets the end
    [at], one row (new alias, same target, [[at, +infinity)]) is appended,
    and read at any instant [t] the narrowed record is active exactly when
    [start <= t < at] and the new record exactly when [at <= t]. *)
Theorem alias_replace_succeeds (db : Table) (existing_alias : Alias)
    (i : nat) (replace_at : datetime) (new_alias_value : string) :
  pk existing_alias = Some i ->
  has_id i db = true ->
  matched existing_alias db ->
  (forall r, In r db -> r_alias r <> new_alias_value) ->
  start existing_alias < replace_at ->
  alias_replace db existing_alias replace_at new_alias_value
  = (update_where_id i ["end"] (set_end existing_alias (Some replace_at)) db
       ++ [mkRow (next_id db) new_alias_value (target existing_alias)
                 replace_at None],
     set_end existing_alias (Some replace_at),
     Ok new_alias_value)
  /\ forall t,
       (str_at (set_end existing_alias (Some replace_at)) t
        = Ok (Some (target existing_alias))
        <-> start existing_alias <= t < replace_at)
       /\ (str_at (mkAlias (Some (next_id db)) new_alias_value
                           (target existing_alias) replace_at None) t
           = Ok (Some (target existing_alias))
           <-> replace_at <= t).
Proof.
  intros Hpk Hid Hm Hnew Hlt. split.
  - unfold alias_replace. fold update_end_kwargs.
    set (ex1 := set_end existing_alias (Some replace_at)).
    rewrite (save_committed_update_end db ex1 i Hpk Hid Hm).
    cbn [target ex1 set_end].
    assert (Hun : unmatched new_alias_value (target existing_alias)
                            replace_at db).
    { intros r Hin Hk. apply same_key_iff in Hk. destruct Hk as [Ha _].
      now destruct (Hnew r Hin). }
    rewrite (create_unmatched _ _ _ _ _ (unmatched_update _ _ _ i ex1 _ Hun)).
    rewrite existsb_detected_update, next_id_update.
    rewrite existsb_false_in.
    + unfold objects_get. rewrite filter_alias_app by reflexivity.
      destruct (objects_filter [alias_eq new_alias_value]
                  (update_where_id i ["end"] ex1 db)) as [|x l] eqn:E;
        [reflexivity|].
      pose proof (filter_alias_update new_alias_value i ex1 db) as Hl.
      rewrite E, (filter_alias_unused _ _ Hnew) in Hl. discriminate.
    + intros r Hin. unfold detected.
      destruct (same_key _ _ r) eqn:Hk; [|reflexivity].
      apply same_key_iff in Hk. destruct Hk as [Ha _].
      now destruct (Hnew r Hin).
  - intros t. unfold str_at, __str__. simpl.
    rewrite andb_false_r, andb_true_r. simpl.
    destruct (start existing_alias <=? t) eqn:E1,
      (t <? replace_at) eqn:E2, (replace_at <=? t) eqn:E3,
      (t <? start existing_alias) eqn:E4; to_prop; simpl;
      try lia; repeat split; intros; try discriminate; try lia;
      try reflexivity.
Qed.

Lemma alias_replace_succeeds_witness :
  0 < 20
  /\ alias_replace [mkRow 1 "a" "T" 0 None; mkRow 2 "c" "U" 3 (Some 9)]
                   (mkAlias (Some 1%nat) "a" "T" 0 None) 20 "b"
     = ([mkRow 1 "a" "T" 0 (Some 20); mkRow 2 "c" "U" 3 (Some 9);
         mkRow 3 "b" "T" 20 None],
        mkAlias (Some 1%nat) "a" "T" 0 (Some 20),
        Ok "b").
Proof.
  split; [lia|].
  apply (fun H1 H2 H3 =>
           proj1 (alias_replace_succeeds
                    [mkRow 1 "a" "T" 0 None; mkRow 2 "c" "U" 3 (Some 9)]
                    (mkAlias (Some 1%nat) "a" "T" 0 None) 1%nat 20 "b"
                    eq_refl eq_refl H1 H2 H3)).
  - exists (mkRow 1 "a" "T" 0 None). simpl. repeat split. now left.
  - intros r [<- | [<- | []]]; simpl; discriminate.
  - simpl. lia.
Defined.

(** X11.  On an instance whose key is not in the table (never saved, or
    its row is gone) [alias_replace] raises [ValueError] or
    [DatabaseError] and leaves the table as it was, but the caller's
    instance has already been given the end [at]. *)
Theorem alias_replace_uncommitted (db : Table) (existing_alias : Alias)
    (replace_at : datetime) (new_alias_value : string) :
  (forall i, pk existing_alias = Some i -> has_id i db = false) ->
  exists x,
    alias_replace db existing_alias replace_at new_alias_value
    = (db, set_end existing_alias (Some replace_at), Raise x)
    /\ (x = DatabaseError \/ exists msg, x = ValueError msg).
Proof.
  intros Hpk. unfold alias_replace.
  destruct (save_cases db (set_end existing_alias (Some replace_at))
                       (mkKwargs false (Some ["end"]))) as [-> | ->].
  - rewrite model_save_update_end. cbn [pk set_end].
    destruct (pk existing_alias) as [i|].
    + rewrite (Hpk i eq_refl). exists DatabaseError. split; auto.
    + eexists. split; [reflexivity|]. right. now eexists.
  - eexists. split; [reflexivity|]. right. now eexists.
Qed.

Lemma alias_replace_uncommitted_witness :
  exists x,
    alias_replace [mkRow 1 "a" "T" 0 None]
                  (mkAlias None "a" "T" 0 None) 20 "b"
    = ([mkRow 1 "a" "T" 0 None], mkAlias None "a" "T" 0 (Some 20), Raise x)
    /\ (x = DatabaseError \/ exists msg, x = ValueError msg).
Proof.
  apply (alias_replace_uncommitted [mkRow 1 "a" "T" 0 None]
           (mkAlias None "a" "T" 0 None) 20 "b").
  intros i H. discriminate H.
Defined.

(** X12.  Whatever its arguments and its outcome, [alias_replace] hands
    back the instance with end [at], removes no row, leaves every row of
    another key as it was, and adds at most one row, under a key no row
    had. *)
Theorem alias_replace_footprint (db db' : Table) (existing_alias existing' : Alias)
    (replace_at : datetime) (new_alias_value : string) (o : outcome string) :
  alias_replace db existing_alias replace_at new_alias_value
  = (db', existing', o) ->
  existing' = set_end existing_alias (Some replace_at)
  /\ (map id db' = map id db \/ map id db' = map id db ++ [next_id db])
  /\ (forall r, In r db -> pk existing_alias <> Some (id r) -> In r db').
Proof.
  unfold alias_replace. fold update_end_kwargs.
  destruct (save db _ update_end_kwargs) as [db1 [ex1|x]] eqn:Hsave.
  - apply save_update_end_ok in Hsave.
    destruct Hsave as [-> (i & Hpk & Hid & ->)]. cbn [pk target set_end] in *.
    set (ex1 := set_end existing_alias (Some replace_at)).
    assert (Hfr : forall r, In r db -> pk existing_alias <> Some (id r) ->
                    In r (update_where_id i ["end"] ex1 db)).
    { intros r Hin Hne. unfold update_where_id. apply in_map_iff.
      exists r. split; [|assumption].
      destruct (Nat.eqb (id r) i) eqn:E; [|reflexivity].
      apply Nat.eqb_eq in E. subst i. contradiction. }
    destruct (objects_create _ _ _ _ _) as [db2 [n|x]] eqn:Hc.
    + apply create_ok in Hc. destruct Hc as [-> ->].
      assert (Hres : forall o', (update_where_id i ["end"] ex1 db
                       ++ [mkRow (next_id (update_where_id i ["end"] ex1 db))
                                 new_alias_value (target existing_alias)
                                 replace_at None], ex1, o')
                      = (db', existing', o) ->
                existing' = ex1
                /\ (map id db' = map id db
                    \/ map id db' = map id db ++ [next_id db])
                /\ (forall r, In r db -> pk existing_alias <> Some (id r) ->
                              In r db')).
      { intros o' H. inversion H; subst. split; [reflexivity|]. split.
        - right. rewrite map_app, map_id_update, next_id_update. reflexivity.
        - intros r Hin Hne. apply in_or_app. left. now apply Hfr. }
      destruct (objects_get _ _); apply Hres.
    + apply save_raise_keeps_table in Hc. subst db2.
      intros H. inversion H; subst. split; [reflexivity|]. split.
      * left. apply map_id_update.
      * exact Hfr.
  - apply save_raise_keeps_table in Hsave. subst db1.
    intros H. inversion H; subst. auto.
Qed.

Lemma alias_replace_footprint_witness :
  mkAlias (Some 1%nat) "a" "T" 0 (Some 20)
  = set_end (mkAlias (Some 1%nat) "a" "T" 0 None) (Some 20)
  /\ (map id [mkRow 1 "a" "T" 0 (Some 20); mkRow 2 "b" "T" 30 None]
      = map id [mkRow 1 "a" "T" 0 None; mkRow 2 "b" "T" 30 None]
      \/ map id [mkRow 1 "a" "T" 0 (Some 20); mkRow 2 "b" "T" 30 None]
         = map id [mkRow 1 "a" "T" 0 None; mkRow 2 "b" "T" 30 None]
           ++ [next_id [mkRow 1 "a" "T" 0 None; mkRow 2 "b" "T" 30 None]])
  /\ (forall r, In r [mkRow 1 "a" "T" 0 None; mkRow 2 "b" "T" 30 None] ->
                Some 1%nat <> Some (id r) ->
                In r [mkRow 1 "a" "T" 0 (Some 20); mkRow 2 "b" "T" 30 None]).
Proof.
  apply (alias_replace_footprint
           [mkRow 1 "a" "T" 0 None; mkRow 2 "b" "T" 30 None] _
           (mkAlias (Some 1%nat) "a" "T" 0 None) _ 20 "b"
           (Raise (ValueError overlap_msg)) eq_refl).
Defined.

(** X13.  Re-using an alias string: for a committed record, when the new
    alias is already used by some committed record (of any target, the
    record being replaced included) and every record of the key (new
    alias, same target) starts before the split point, [alias_replace]
    commits the narrowed end and the new record and then raises
    [MultipleObjectsReturned]. *)
Theorem alias_replace_reused_alias (db : Table) (existing_alias : Alias)
    (i : nat) (replace_at : datetime) (new_alias_value : string) (r0 : Row) :
  pk existing_alias = Some i ->
  has_id i db = true ->
  matched existing_alias db ->
  In r0 db -> r_alias r0 = new_alias_value ->
  (forall r, In r db ->
             same_key new_alias_value (target existing_alias) r = true ->
             r_start r < replace_at) ->
  alias_replace db existing_alias replace_at new_alias_value
  = (update_where_id i ["end"] (set_end existing_alias (Some replace_at)) db
       ++ [mkRow (next_id db) new_alias_value (target existing_alias)
                 replace_at None],
     set_end existing_alias (Some replace_at),
     Raise MultipleObjectsReturned).
Proof.
  intros Hpk Hid Hm Hin Hr0 Hbefore.
  unfold alias_replace. fold update_end_kwargs.
  set (ex1 := set_end existing_alias (Some replace_at)).
  rewrite (save_committed_update_end db ex1 i Hpk Hid Hm).
  cbn [target ex1 set_end].
  assert (Hun : unmatched new_alias_value (target existing_alias)
                          replace_at db).
  { intros r Hr Hk. pose proof (Hbefore r Hr Hk). lia. }
  rewrite (create_unmatched _ _ _ _ _ (unmatched_update _ _ _ i ex1 _ Hun)).
  rewrite existsb_detected_update, next_id_update.
  rewrite existsb_false_in.
  - unfold objects_get. rewrite filter_alias_app by reflexivity.
    pose proof (filter_alias_update new_alias_value i ex1 db) as Hl.
    assert (Hf : In r0 (objects_filter [alias_eq new_alias_value] db)).
    { apply in_objects_filter. split; [assumption|].
      simpl. now rewrite Hr0, String.eqb_refl. }
    destruct (objects_filter [alias_eq new_alias_value] db) as [|y l0];
      [contradiction|].
    destruct (objects_filter [alias_eq new_alias_value]
                (update_where_id i ["end"] ex1 db)) as [|x [|x' l]];
      [discriminate Hl | reflexivity | reflexivity].
  - intros r Hr. unfold detected.
    destruct (same_key _ _ r) eqn:Hk; [|reflexivity].
    pose proof (Hbefore r Hr Hk). simpl. apply Z.leb_gt. lia.
Qed.

Lemma alias_replace_reused_alias_witness :
  alias_replace [mkRow 1 "a" "T" 0 (Some 10); mkRow 2 "b" "T" 10 None]
                (mkAlias (Some 2%nat) "b" "T" 10 None) 20 "a"
  = ([mkRow 1 "a" "T" 0 (Some 10); mkRow 2 "b" "T" 10 (Some 20);
      mkRow 3 "a" "T" 20 None],
     mkAlias (Some 2%nat) "b" "T" 10 (Some 20),
     Raise MultipleObjectsReturned).
Proof.
  apply (alias_replace_reused_alias
           [mkRow 1 "a" "T" 0 (Some 10); mkRow 2 "b" "T" 10 None]
           (mkAlias (Some 2%nat) "b" "T" 10 None) 2%nat 20 "a"
           (mkRow 1 "a" "T" 0 (Some 10)) eq_refl eq_refl).
  - exists (mkRow 2 "b" "T" 10 None). simpl. repeat split. right. now left.
  - now left.
  - reflexivity.
  - intros r [<- | [<- | []]] Hk; simpl in *; try discriminate; lia.
Defined.

(** X14.  A later record blocks the split after the narrowing: for a
    committed record, when a record of the key (new alias, same target)
    starts at or after the split point and none starts exactly at it,
    [alias_replace] raises the overlap error, and the table it leaves has
    the record's end narrowed to [at] and no new record. *)
Theorem alias_replace_blocked (db : Table) (existing_alias : Alias)
    (i : nat) (replace_at : datetime) (new_alias_value : string) (r0 : Row) :
  pk existing_alias = Some i ->
  has_id i db = true ->
  matched existing_alias db ->
  In r0 db ->
  same_key new_alias_value (target existing_alias) r0 = true ->
  replace_at <= r_start r0 ->
  unmatched new_alias_value (target existing_alias) replace_at db ->
  alias_replace db existing_alias replace_at new_alias_value
  = (update_where_id i ["end"] (set_end existing_alias (Some replace_at)) db,
     set_end existing_alias (Some replace_at),
     Raise (ValueError overlap_msg)).
Proof.
  intros Hpk Hid Hm Hin Hk Hle Hun.
  unfold alias_replace. fold update_end_kwargs.
  set (ex1 := set_end existing_alias (Some replace_at)).
  rewrite (save_committed_update_end db ex1 i Hpk Hid Hm).
  cbn [target ex1 set_end].
  rewrite (create_unmatched _ _ _ _ _ (unmatched_update _ _ _ i ex1 _ Hun)).
  rewrite existsb_detected_update.
  assert (Hex : existsb (detected new_alias_value (target existing_alias)
                                  replace_at None) db = true).
  { apply existsb_detected. exists r0. split; [assumption|].
    unfold detected. rewrite Hk. simpl. apply Z.leb_le. lia. }
  now rewrite Hex.
Qed.

Lemma alias_replace_blocked_witness :
  20 <= r_start (mkRow 2 "b" "T" 30 (Some 40))
  /\ alias_replace [mkRow 1 "a" "T" 0 None; mkRow 2 "b" "T" 30 (Some 40)]
                   (mkAlias (Some 1%nat) "a" "T" 0 None) 20 "b"
     = ([mkRow 1 "a" "T" 0 (Some 20); mkRow 2 "b" "T" 30 (Some 40)],
        mkAlias (Some 1%nat) "a" "T" 0 (Some 20),
        Raise (ValueError overlap_msg)).
Proof.
  split; [simpl; lia|].
  apply (alias_replace_blocked
           [mkRow 1 "a" "T" 0 None; mkRow 2 "b" "T" 30 (Some 40)]
           (mkAlias (Some 1%nat) "a" "T" 0 None) 1%nat 20 "b"
           (mkRow 2 "b" "T" 30 (Some 40)) eq_refl eq_refl).
  - exists (mkRow 1 "a" "T" 0 None). simpl. repeat split. now left.
  - right. now left.
  - reflexivity.
  - simpl. lia.
  - intros r [<- | [<- | []]] Hk; simpl in *; try discriminate; lia.
Defined.

(** ** Targets are queried apart *)

(** X15.  Records of other targets never affect a query: adding a record
    of another target anywhere in the table, open-ended or not, changes
    neither the list [get_aliases] returns for the target nor the error it
    raises. *)
Theorem get_aliases_other_target (strptime : string -> string -> option datetime)
    (db1 db2 : Table) (r : Row) (tgt : string) (start end' : pyval) :
  r_target r <> tgt ->
  get_aliases strptime (db1 ++ r :: db2) tgt start end'
  = get_aliases strptime (db1 ++ db2) tgt start end'.
Proof.
  intros Hne.
  assert (E : objects_filter [target_eq tgt] (db1 ++ r :: db2)
              = objects_filter [target_eq tgt] (db1 ++ db2)).
  { unfold objects_filter. rewrite !filter_app. f_equal.
    cbn [filter forallb matches].
    apply String.eqb_neq in Hne. now rewrite Hne. }
  unfold get_aliases. now rewrite E.
Qed.

Lemma get_aliases_other_target_witness :
  r_target (mkRow 2 "b" "U" 7 None) <> "T"
  /\ get_aliases no_strptime
       ([mkRow 1 "a" "T" 6 (Some 8)] ++ mkRow 2 "b" "U" 7 None
          :: [mkRow 3 "c" "T" 7 (Some 9)])
       "T" (PyDatetime 5) (PyDatetime 10)
     = Ok ["a"; "c"].
Proof.
  split; [simpl; discriminate|].
  apply (get_aliases_other_target no_strptime
           [mkRow 1 "a" "T" 6 (Some 8)] [mkRow 3 "c" "T" 7 (Some 9)]
           (mkRow 2 "b" "U" 7 None) "T" (PyDatetime 5) (PyDatetime 10)).
  simpl. discriminate.
Defined.

(** ** The final lookup of [alias_replace] *)

(** For a committed record, when every record of the key (new alias, same
    target) starts before the split point, the narrowing and the creation
    are both accepted, and the outcome is that of the lookup by the new
    alias alone. *)
Lemma alias_replace_accepted (db : Table) (existing_alias : Alias)
    (i : nat) (replace_at : datetime) (new_alias_value : string) :
  pk existing_alias = Some i ->
  has_id i db = true ->
  matched existing_alias db ->
  (forall r, In r db ->
             same_key new_alias_value (target existing_alias) r = true ->
             r_start r < replace_at) ->
  alias_replace db existing_alias replace_at new_alias_value
  = (update_where_id i ["end"] (set_end existing_alias (Some replace_at)) db
       ++ [mkRow (next_id db) new_alias_value (target existing_alias)
                 replace_at None],
     set_end existing_alias (Some replace_at),
     if truthy (objects_filter [alias_eq new_alias_value] db)
     then Raise MultipleObjectsReturned
     else Ok new_alias_value).
Proof.
  intros Hpk Hid Hm Hbefore.
  unfold alias_replace. fold update_end_kwargs.
  set (ex1 := set_end existing_alias (Some replace_at)).
  rewrite (save_committed_update_end db ex1 i Hpk Hid Hm).
  cbn [target ex1 set_end].
  assert (Hun : unmatched new_alias_value (target existing_alias)
                          replace_at db).
  { intros r Hr Hk. pose proof (Hbefore r Hr Hk). lia. }
  rewrite (create_unmatched _ _ _ _ _ (unmatched_update _ _ _ i ex1 _ Hun)).
  rewrite existsb_detected_update, next_id_update.
  rewrite existsb_false_in.
  - unfold objects_get. rewrite filter_alias_app by reflexivity.
    pose proof (filter_alias_update new_alias_value i ex1 db) as Hl.
    destruct (objects_filter [alias_eq new_alias_value] db) as [|y l0];
      destruct (objects_filter [alias_eq new_alias_value]
                  (update_where_id i ["end"] ex1 db)) as [|x [|x' l]];
      try discriminate Hl; reflexivity.
  - intros r Hr. unfold detected.
    destruct (same_key _ _ r) eqn:Hk; [|reflexivity].
    pose proof (Hbefore r Hr Hk). simpl. apply Z.leb_gt. lia.
Qed.

(** C10 (amended).  [alias_replace] looks up the value it returns by the
    new alias string alone, ignoring the target.  For a committed existing
    record, when every record of the key (new alias, existing target)
    starts before the split point, the narrowed end and the new record are
    both committed, and the call then raises [MultipleObjectsReturned] if
    and only if some committed record already used the new alias, under
    any target; it returns the new alias if and only if none did. *)
Theorem alias_replace_lookup_by_alias_alone (db : Table)
    (existing_alias : Alias) (i : nat) (replace_at : datetime)
    (new_alias_value : string) :
  pk existing_alias = Some i ->
  has_id i db = true ->
  matched existing_alias db ->
  (forall r, In r db ->
             same_key new_alias_value (target existing_alias) r = true ->
             r_start r < replace_at) ->
  exists o,
    alias_replace db existing_alias replace_at new_alias_value
    = (update_where_id i ["end"] (set_end existing_alias (Some replace_at)) db
         ++ [mkRow (next_id db) new_alias_value (target existing_alias)
                   replace_at None],
       set_end existing_alias (Some replace_at), o)
    /\ (o = Raise MultipleObjectsReturned
        <-> exists r, In r db /\ r_alias r = new_alias_value)
    /\ (o = Ok new_alias_value
        <-> forall r, In r db -> r_alias r <> new_alias_value)
    /\ end_committed i (Some replace_at)
         (update_where_id i ["end"]
            (set_end existing_alias (Some replace_at)) db
          ++ [mkRow (next_id db) new_alias_value (target existing_alias)
                    replace_at None]).
Proof.
  intros Hpk Hid Hm Hbefore.
  rewrite (alias_replace_accepted _ _ _ _ _ Hpk Hid Hm Hbefore).
  eexists. split; [reflexivity|].
  assert (Hused : truthy (objects_filter [alias_eq new_alias_value] db) = true
                  <-> exists r, In r db /\ r_alias r = new_alias_value).
  { rewrite truthy_iff. split; intros (r & H).
    - apply in_objects_filter in H. destruct H as [Hin Ha].
      simpl in Ha. to_prop. now exists r.
    - destruct H as [Hin Ha]. exists r. apply in_objects_filter.
      split; [assumption|]. simpl. now rewrite Ha, String.eqb_refl. }
  split; [|split].
  - rewrite <- Hused.
    destruct (truthy _); split; auto; discriminate.
  - destruct (truthy _); split.
    + discriminate.
    + intros Hnone. destruct (proj1 Hused eq_refl) as (r & Hin & Ha).
      now destruct (Hnone r Hin).
    + intros _ r Hin Ha.
      assert (Hf : false = true) by (apply Hused; now exists r).
      discriminate Hf.
    + reflexivity.
  - apply end_committed_app; [|simpl; now rewrite next_id_update].
    apply (update_end_committed i (set_end existing_alias (Some replace_at))
                                db Hid).
Qed.

Lemma alias_replace_lookup_by_alias_alone_witness :
  exists o,
    alias_replace [mkRow 1 "a" "T" 0 None; mkRow 2 "b" "U" 30 None]
                  (mkAlias (Some 1%nat) "a" "T" 0 None) 20 "b"
    = ([mkRow 1 "a" "T" 0 (Some 20); mkRow 2 "b" "U" 30 None;
        mkRow 3 "b" "T" 20 None],
       mkAlias (Some 1%nat) "a" "T" 0 (Some 20), o)
    /\ (o = Raise MultipleObjectsReturned
        <-> exists r, In r [mkRow 1 "a" "T" 0 None; mkRow 2 "b" "U" 30 None]
                      /\ r_alias r = "b")
    /\ (o = Ok "b"
        <-> forall r, In r [mkRow 1 "a" "T" 0 None; mkRow 2 "b" "U" 30 None]
                      -> r_alias r <> "b")
    /\ end_committed 1 (Some 20)
         [mkRow 1 "a" "T" 0 (Some 20); mkRow 2 "b" "U" 30 None;
          mkRow 3 "b" "T" 20 None].
Proof.
  apply (alias_replace_lookup_by_alias_alone
           [mkRow 1 "a" "T" 0 None; mkRow 2 "b" "U" 30 None]
           (mkAlias (Some 1%nat) "a" "T" 0 None) 1%nat 20 "b"
           eq_refl eq_refl).
  - exists (mkRow 1 "a" "T" 0 None). simpl. repeat split. now left.
  - intros r [<- | [<- | []]] Hk; simpl in *; try discriminate; lia.
Defined.

(** C10 (counterexample).  The new alias "b" is already used under another
    key, ("b", "U"), but a record of the key ("b", "T") starts at 40,
    after the split point 20.  The call narrows the record "a", then the
    creation raises the overlap error: no new record is committed and the
    final lookup is never reached. *)
Lemma alias_replace_shared_alias_not_looked_up :
  (exists r, In r [mkRow 1 "a" "T" 0 None; mkRow 2 "b" "U" 30 None;
                   mkRow 3 "b" "T" 40 None]
             /\ r_alias r = "b" /\ r_target r <> "T")
  /\ alias_replace [mkRow 1 "a" "T" 0 None; mkRow 2 "b" "U" 30 None;
                    mkRow 3 "b" "T" 40 None]
                   (mkAlias (Some 1%nat) "a" "T" 0 None) 20 "b"
     = ([mkRow 1 "a" "T" 0 (Some 20); mkRow 2 "b" "U" 30 None;
         mkRow 3 "b" "T" 40 None],
        mkAlias (Some 1%nat) "a" "T" 0 (Some 20),
        Raise (ValueError overlap_msg)).
Proof.
  split; [|reflexivity].
  exists (mkRow 2 "b" "U" 30 None). simpl. repeat split.
  - right. now left.
  - discriminate.
Qed.
